(** * RED_TEAM dork generator: payload validator, generation controller,
      refinement loop and history ledger of the [App] component.

    The development embeds the logic of the React component [App]
    (validatePayload, generateWithAI, handleApplyImprovement,
    handleManualChange and the manual-mode effect) as pure state-passing
    functions and proves the properties stated for them. *)

From Stdlib Require Import List NArith Arith Bool Lia String Ascii.
Import ListNotations.

Set Implicit Arguments.
Set Warnings "-register-all".

(* ================================================================== *)
(** * Part I: definitions                                              *)
(* ================================================================== *)

(** ** JavaScript strings

    A JavaScript string is a sequence of UTF-16 code units; a regular
    expression without the [u] flag works on code units too. *)

Module JS.

Definition jsstring := list N.

(** An ASCII literal as a JavaScript string. *)
Definition lit (s : string) : jsstring :=
  map N_of_ascii (list_ascii_of_string s).

Definition dquote : N := 34.
Definition newline : N := 10.

Definition in_range (lo hi c : N) : bool := (lo <=? c)%N && (c <=? hi)%N.

(** WhiteSpace and LineTerminator of ECMAScript: the class [\s] of a
    regular expression and the characters [String.prototype.trim]
    strips. *)
Definition is_space (c : N) : bool :=
  in_range 9 13 c || (c =? 32)%N || (c =? 0xA0)%N || (c =? 0x1680)%N
  || in_range 0x2000 0x200A c || in_range 0x2028 0x2029 c
  || (c =? 0x202F)%N || (c =? 0x205F)%N || (c =? 0x3000)%N
  || (c =? 0xFEFF)%N.

Fixpoint trimStart (s : jsstring) : jsstring :=
  match s with
  | c :: s' => if is_space c then trimStart s' else s
  | [] => []
  end.

Definition trimEnd (s : jsstring) : jsstring := rev (trimStart (rev s)).

(** [s.trim()] *)
Definition trim (s : jsstring) : jsstring := trimEnd (trimStart s).

(** Truthiness of a string: only the empty string is falsy. *)
Definition truthy (s : jsstring) : bool :=
  match s with [] => false | _ :: _ => true end.

(** [a || b] on strings. *)
Definition or_else (a b : jsstring) : jsstring :=
  if truthy a then a else b.

(** [parts.join(sep)] *)
Fixpoint join (sep : jsstring) (parts : list jsstring) : jsstring :=
  match parts with
  | [] => []
  | [p] => p
  | p :: rest => p ++ sep ++ join sep rest
  end.

(** A string all of whose code units are white space (the empty string
    included). *)
Definition blank (s : jsstring) : bool := forallb is_space s.

End JS.
Import JS.

(** ** Regular expressions

    The fragment the validator uses: character classes, literals,
    alternation, concatenation and repetition.  Matching is by
    derivatives; [test] is the unanchored search of [RegExp.prototype.test]. *)

Module Regex.

Inductive regex : Type :=
| Void : regex
| Eps : regex
| Chars (p : N -> bool) : regex
| Alt (r1 r2 : regex) : regex
| Cat (r1 r2 : regex) : regex
| Star (r : regex) : regex.

(** One given code unit. *)
Definition One (c : N) : regex := Chars (N.eqb c).

(** A literal word. *)
Definition Str (w : jsstring) : regex :=
  fold_right (fun c r => Cat (One c) r) Eps w.

(** [r+] *)
Definition Plus (r : regex) : regex := Cat r (Star r).

Fixpoint nullable (r : regex) : bool :=
  match r with
  | Void => false
  | Eps => true
  | Chars _ => false
  | Alt r1 r2 => nullable r1 || nullable r2
  | Cat r1 r2 => nullable r1 && nullable r2
  | Star _ => true
  end.

Fixpoint deriv (c : N) (r : regex) : regex :=
  match r with
  | Void => Void
  | Eps => Void
  | Chars p => if p c then Eps else Void
  | Alt r1 r2 => Alt (deriv c r1) (deriv c r2)
  | Cat r1 r2 =>
      if nullable r1
      then Alt (Cat (deriv c r1) r2) (deriv c r2)
      else Cat (deriv c r1) r2
  | Star r1 => Cat (deriv c r1) (Star r1)
  end.

(** Does [r] match the whole of [s]? *)
Fixpoint matches (r : regex) (s : jsstring) : bool :=
  match s with
  | [] => nullable r
  | c :: s' => matches (deriv c r) s'
  end.

(** Does [r] match some prefix of [s]? *)
Fixpoint lookingAt (r : regex) (s : jsstring) : bool :=
  nullable r ||
  match s with
  | [] => false
  | c :: s' => lookingAt (deriv c r) s'
  end.

(** [r.test(s)]: does [r] match at some position of [s]? *)
Fixpoint test (r : regex) (s : jsstring) : bool :=
  lookingAt r s ||
  match s with
  | [] => false
  | _ :: s' => test r s'
  end.

(** [s.match(re)] for a global pattern [re] of one code unit [c]: the
    array of all the matches, or [null] (here [None]) when there is
    none. *)
Definition match_global_unit (c : N) (s : jsstring)
  : option (list jsstring) :=
  match filter (N.eqb c) s with
  | [] => None
  | hits => Some (map (fun u => [u]) hits)
  end.

(** The language of a regular expression. *)
Inductive Matches : regex -> jsstring -> Prop :=
| MEps : Matches Eps []
| MChars p c : p c = true -> Matches (Chars p) [c]
| MAltL r1 r2 s : Matches r1 s -> Matches (Alt r1 r2) s
| MAltR r1 r2 s : Matches r2 s -> Matches (Alt r1 r2) s
| MCat r1 r2 s1 s2 :
    Matches r1 s1 -> Matches r2 s2 -> Matches (Cat r1 r2) (s1 ++ s2)
| MStarNil r : Matches (Star r) []
| MStarApp r s1 s2 :
    Matches r s1 -> Matches (Star r) s2 -> Matches (Star r) (s1 ++ s2).

End Regex.
Import Regex.

(** ** The payload validator ([validatePayload]) *)

Module Validator.

Definition CRITICAL_CYRILLIC : jsstring :=
  lit "CRITICAL: Cyrillic characters detected in Dork. Google Operators must be ASCII.".

Definition SYNTAX_ERROR_QUOTES : jsstring :=
  lit "SYNTAX ERROR: Unbalanced quotes detected. Ensure all strings are closed.".

Definition SYNTAX_WARNING_SPACE : jsstring :=
  lit "SYNTAX WARNING: Space detected after operator colon (e.g. 'ext: pdf'). Remove space.".

(** The class of the first check: U+0430..U+044F, U+0410..U+042F,
    U+0451 and U+0401, the small and capital letters of the Russian
    alphabet. *)
Definition cyrillic_class (c : N) : bool :=
  in_range 0x430 0x44F c || in_range 0x410 0x42F c
  || (c =? 0x451)%N || (c =? 0x401)%N.

Definition re_cyrillic : regex := Chars cyrillic_class.

(** The operators of the third check, in the order of the pattern. *)
Definition spacing_operators : list jsstring :=
  [lit "ext"; lit "site"; lit "inurl"; lit "intitle"].

(** [(ext|site|inurl|intitle):\s+] *)
Definition re_spacing : regex :=
  Cat (Alt (Str (lit "ext"))
        (Alt (Str (lit "site"))
          (Alt (Str (lit "inurl")) (Str (lit "intitle")))))
      (Cat (One 58) (Plus (Chars is_space))).

(** The length of [payload.match(re) || []] for the global pattern of
    one double quote. *)
Definition quoteCount (payload : jsstring) : nat :=
  List.length (match match_global_unit dquote payload with
          | Some hits => hits
          | None => []
          end).

Definition push_if (b : bool) (issue : jsstring) (issues : list jsstring)
  : list jsstring :=
  if b then issues ++ [issue] else issues.

Definition validatePayload (payload : jsstring) : list jsstring :=
  let issues := [] in
  let issues := push_if (test re_cyrillic payload) CRITICAL_CYRILLIC issues in
  let issues :=
    push_if (negb (quoteCount payload mod 2 =? 0)) SYNTAX_ERROR_QUOTES issues in
  let issues := push_if (test re_spacing payload) SYNTAX_WARNING_SPACE issues in
  issues.

End Validator.
Import Validator.

(** ** JSON values

    [JSON.parse] yields untyped values: the interface [DorkResponse] is
    erased at run time, so the controller handles whatever was parsed. *)

Module Json.

Inductive json : Type :=
| JNull : json
| JBool (b : bool) : json
| JNumber (literal : jsstring) : json
| JString (s : jsstring) : json
| JArray (items : list json) : json
| JObject (members : list (jsstring * json)) : json.

(** The members of a parsed object, one per key. *)
Definition object := list (jsstring * json).

Definition key_eqb (a b : jsstring) : bool :=
  if list_eq_dec N.eq_dec a b then true else false.

(** [o.k] on an object: [None] is [undefined]. *)
Fixpoint get (k : jsstring) (o : object) : option json :=
  match o with
  | [] => None
  | (k', v) :: rest => if key_eqb k k' then Some v else get k rest
  end.

(** The outcome of the run-time library's [JSON.parse]: the parsed
    value, or the message of the [SyntaxError] it throws. *)
Definition parser := jsstring -> jsstring + json.

End Json.
Import Json.

(** ** The session state of [App] and its handlers *)

Module Session.

Record ManualParams : Type := {
  site : jsstring;
  inurl : jsstring;
  intitle : jsstring;
  filetype : jsstring;
  textquery : jsstring
}.

Record HistoryItem : Type := {
  timestamp : N;
  input : jsstring;
  response : object
}.

(** The [useState] cells of [App].  [analysis] is [null] or the parsed
    response object. *)
Record State : Type := {
  naturalInput : jsstring;
  dork : jsstring;
  analysis : option object;
  history : list HistoryItem;
  isLoading : bool;
  isOptimizing : bool;
  error : option jsstring;
  syntaxErrors : list jsstring;
  showManual : bool;
  copyFeedback : bool;
  manualParams : ManualParams
}.

Definition noManualParams : ManualParams :=
  {| site := []; inurl := []; intitle := []; filetype := [];
     textquery := [] |}.

Definition initialState : State :=
  {| naturalInput := []; dork := []; analysis := None; history := [];
     isLoading := false; isOptimizing := false; error := None;
     syntaxErrors := []; showManual := false; copyFeedback := false;
     manualParams := noManualParams |}.

(** *** State setters *)

Definition setNaturalInput (v : jsstring) (st : State) : State :=
  {| naturalInput := v; dork := dork st; analysis := analysis st;
     history := history st; isLoading := isLoading st;
     isOptimizing := isOptimizing st; error := error st;
     syntaxErrors := syntaxErrors st; showManual := showManual st;
     copyFeedback := copyFeedback st; manualParams := manualParams st |}.

Definition setDork (v : jsstring) (st : State) : State :=
  {| naturalInput := naturalInput st; dork := v; analysis := analysis st;
     history := history st; isLoading := isLoading st;
     isOptimizing := isOptimizing st; error := error st;
     syntaxErrors := syntaxErrors st; showManual := showManual st;
     copyFeedback := copyFeedback st; manualParams := manualParams st |}.

Definition setAnalysis (v : option object) (st : State) : State :=
  {| naturalInput := naturalInput st; dork := dork st; analysis := v;
     history := history st; isLoading := isLoading st;
     isOptimizing := isOptimizing st; error := error st;
     syntaxErrors := syntaxErrors st; showManual := showManual st;
     copyFeedback := copyFeedback st; manualParams := manualParams st |}.

(** [setHistory(prev => f(prev))] *)
Definition setHistory (f : list HistoryItem -> list HistoryItem)
  (st : State) : State :=
  {| naturalInput := naturalInput st; dork := dork st;
     analysis := analysis st; history := f (history st);
     isLoading := isLoading st; isOptimizing := isOptimizing st;
     error := error st; syntaxErrors := syntaxErrors st;
     showManual := showManual st; copyFeedback := copyFeedback st;
     manualParams := manualParams st |}.

Definition setIsLoading (v : bool) (st : State) : State :=
  {| naturalInput := naturalInput st; dork := dork st;
     analysis := analysis st; history := history st; isLoading := v;
     isOptimizing := isOptimizing st; error := error st;
     syntaxErrors := syntaxErrors st; showManual := showManual st;
     copyFeedback := copyFeedback st; manualParams := manualParams st |}.

Definition setError (v : option jsstring) (st : State) : State :=
  {| naturalInput := naturalInput st; dork := dork st;
     analysis := analysis st; history := history st;
     isLoading := isLoading st; isOptimizing := isOptimizing st;
     error := v; syntaxErrors := syntaxErrors st;
     showManual := showManual st; copyFeedback := copyFeedback st;
     manualParams := manualParams st |}.

Definition setSyntaxErrors (v : list jsstring) (st : State) : State :=
  {| naturalInput := naturalInput st; dork := dork st;
     analysis := analysis st; history := history st;
     isLoading := isLoading st; isOptimizing := isOptimizing st;
     error := error st; syntaxErrors := v; showManual := showManual st;
     copyFeedback := copyFeedback st; manualParams := manualParams st |}.

Definition setManualParams (v : ManualParams) (st : State) : State :=
  {| naturalInput := naturalInput st; dork := dork st;
     analysis := analysis st; history := history st;
     isLoading := isLoading st; isOptimizing := isOptimizing st;
     error := error st; syntaxErrors := syntaxErrors st;
     showManual := showManual st; copyFeedback := copyFeedback st;
     manualParams := v |}.

(** *** Batches of updates

    A handler reads the state of the render it was created in and
    queues updates; React applies the batch and renders again.  The
    effect that depends on [manualParams] and [analysis] runs after a
    render in which one of the two got a new identity. *)

(** The generation request sent to the AI boundary.  Of the response
    schema only the list of required properties is kept. *)
Record Request : Type := {
  model : jsstring;
  contents : jsstring;
  responseMimeType : jsstring;
  required : list jsstring;
  systemInstruction : jsstring
}.

Record Reaction : Type := {
  updates : State -> State;
  deps_changed : bool;
  calls : list Request
}.

Definition nothing : Reaction :=
  {| updates := fun st => st; deps_changed := false; calls := [] |}.

(** *** The manual-mode effect *)

Definition manual_parts (m : ManualParams) : list jsstring :=
  let parts := [] in
  let parts :=
    if truthy (site m) then parts ++ [lit "site:" ++ site m] else parts in
  let parts :=
    if truthy (inurl m) then parts ++ [lit "inurl:" ++ inurl m] else parts in
  let parts :=
    if truthy (intitle m)
    then parts ++ [lit "intitle:" ++ [dquote] ++ intitle m ++ [dquote]]
    else parts in
  let parts :=
    if truthy (filetype m)
    then parts ++ [lit "filetype:" ++ filetype m] else parts in
  let parts :=
    if truthy (textquery m)
    then parts ++ [[dquote] ++ textquery m ++ [dquote]] else parts in
  parts.

(** The body of the effect with dependencies [manualParams, analysis]. *)
Definition syncManualEffect (st : State) : State :=
  match analysis st with
  | Some _ => st
  | None =>
      let parts := manual_parts (manualParams st) in
      if 0 <? List.length parts then setDork (join (lit " ") parts) st
      else st
  end.

(** Apply a batch to the current state and run the effect if due. *)
Definition commit (r : Reaction) (st : State) : State :=
  let st' := updates r st in
  if deps_changed r then syncManualEffect st' else st'.

(** *** [handleManualChange] *)

(** The keys of [manualParams] an input element can name. *)
Inductive ManualField : Type :=
| FSite | FInurl | FIntitle | FFiletype | FTextquery.

(** [{...manualParams, [name]: value}] *)
Definition withField (m : ManualParams) (name : ManualField)
  (value : jsstring) : ManualParams :=
  match name with
  | FSite =>
      {| site := value; inurl := inurl m; intitle := intitle m;
         filetype := filetype m; textquery := textquery m |}
  | FInurl =>
      {| site := site m; inurl := value; intitle := intitle m;
         filetype := filetype m; textquery := textquery m |}
  | FIntitle =>
      {| site := site m; inurl := inurl m; intitle := value;
         filetype := filetype m; textquery := textquery m |}
  | FFiletype =>
      {| site := site m; inurl := inurl m; intitle := intitle m;
         filetype := value; textquery := textquery m |}
  | FTextquery =>
      {| site := site m; inurl := inurl m; intitle := intitle m;
         filetype := filetype m; textquery := value |}
  end.

Definition handleManualChange (name : ManualField) (value : jsstring)
  (closure : State) : Reaction :=
  {| updates := fun st =>
       setManualParams (withField (manualParams closure) name value)
         (setAnalysis None st);
     deps_changed := true;
     calls := [] |}.

End Session.
Import Session.

(** ** The generation controller ([generateWithAI]) and the refinement
       loop ([handleApplyImprovement]) *)

Module Controller.

Definition SYSTEM_ALERT : jsstring :=
  lit "SYSTEM ALERT: API_KEY is missing. Configure Vercel Environment Variables.".

Definition ABORTED : jsstring := lit "ABORTED: API Key not found.".

Definition UPLINK_ERROR : jsstring :=
  lit "UPLINK ERROR: Unable to generate strategy.".

(** The template of the generation prompt, around the objective. *)
Definition indent : jsstring := lit "      ".

Definition prompt_head : jsstring :=
  join [newline]
    [ lit "Role: Elite Red Team OSINT Specialist.";
      indent ++ lit "Knowledge Base: Google Hacking Database (GHDB - exploit-db.com).";
      indent;
      indent ++ lit "Input Objective: " ++ [dquote] ].

(** The transliteration example of rule 2 quotes a Russian word. *)
Definition paroli_cyrillic : jsstring :=
  [0x43F; 0x430; 0x440; 0x43E; 0x43B; 0x438]%N.

Definition prompt_tail : jsstring :=
  join [newline]
    [ [dquote];
      indent;
      indent ++ lit "Task:";
      indent ++ lit "1. Generate a specialized Google Dork based on GHDB patterns to achieve the objective.";
      indent ++ lit "2. STRICT RULE: The 'dork' field must contain ONLY ASCII CHARACTERS. Absolutely NO CYRILLIC (Russian) characters in the final dork string. If the target is Russian, use 'site:.ru' or transliterated keywords (e.g., 'paroli' not '"
        ++ paroli_cyrillic ++ lit "').";
      indent ++ lit "3. SYNTAX SAFETY: Ensure all quotes are balanced. Isolate special characters correctly.";
      indent ++ lit "4. STRATEGY: Analyze how this query could be improved or what it might miss, and propose a refined objective.";
      indent;
      indent ++ lit "Output Fields:";
      indent ++ lit "- dork: The query string (ASCII ONLY).";
      indent ++ lit "- explanation: Tactical analysis in Russian.";
      indent ++ lit "- riskLevel: Assessment.";
      indent ++ lit "- validationAnalysis: Syntax and logic check in Russian.";
      indent ++ lit "- improvementReasoning: Explanation of how to deepen the search (in Russian).";
      indent ++ lit "- refinedObjective: A specific, better prompt for the next iteration." ].

Definition prompt (inputToUse : jsstring) : jsstring :=
  prompt_head ++ inputToUse ++ prompt_tail.

(** [responseSchema.required] *)
Definition required_fields : list jsstring :=
  [ lit "dork"; lit "explanation"; lit "riskLevel";
    lit "suggestedOperators"; lit "validationAnalysis";
    lit "improvementReasoning"; lit "refinedObjective" ].

Definition generation_request (inputToUse : jsstring) : Request :=
  {| model := lit "gemini-2.5-flash";
     contents := prompt inputToUse;
     responseMimeType := lit "application/json";
     required := required_fields;
     systemInstruction :=
       lit "You are an autonomous AI cyber-security assistant. Your primary directive is to generate syntacticly perfect Google Dorks. You must NEVER use Cyrillic characters in the 'dork' field." |}.

(** How the awaited call to the AI boundary ends: it resolves with a
    response whose [text] may be undefined, or it rejects with an
    [Error] whose [message] may be undefined. *)
Inductive Outcome : Type :=
| Resolved (text : option jsstring)
| Rejected (message : option jsstring).

(** [overrideInput || naturalInput] *)
Definition inputToUse (overrideInput : option jsstring) (closure : State)
  : jsstring :=
  match overrideInput with
  | Some o => or_else o (naturalInput closure)
  | None => naturalInput closure
  end.

(** [[entry, ...prev].slice(0, 10)] *)
Definition record (entry : HistoryItem) (prev : list HistoryItem)
  : list HistoryItem :=
  firstn 10 (entry :: prev).

(** The [catch] block followed by [finally]. *)
Definition uplink_error (message : option jsstring) : jsstring :=
  let errorMsg := UPLINK_ERROR in
  match message with
  | Some m =>
      if truthy m then errorMsg ++ lit " [" ++ m ++ lit "]" else errorMsg
  | None => errorMsg
  end.

Definition failed (message : option jsstring) : Reaction :=
  {| updates := fun st =>
       setIsLoading false (setError (Some (uplink_error message)) st);
     deps_changed := false;
     calls := [] |}.

(** The body of [if (result.text)] for a parsed object whose [dork] is
    the string [d], followed by [finally]. *)
Definition succeeded (inputToUse : jsstring) (now : N) (data : object)
  (d : jsstring) : Reaction :=
  {| updates := fun st =>
       let validationIssues := validatePayload d in
       setIsLoading false
         (setManualParams noManualParams
           (setHistory
             (record {| timestamp := now; input := inputToUse;
                        response := data |})
             (setAnalysis (Some data)
               (setDork d
                 (setSyntaxErrors validationIssues st)))));
     deps_changed := true;
     calls := [] |}.

Section Runtime.

(** [process.env.API_KEY] as the build injects it: the empty string
    when no credential is configured. *)
Variable API_KEY : jsstring.

(** [JSON.parse] of the run-time library. *)
Variable JSON_parse : parser.

(** The message of the [TypeError] the engine throws when [dork] is
    read from, or validated on, the parsed value. *)
Variable TypeError_message : json -> jsstring.

(** The effect that checks for the key when the component mounts. *)
Definition mountEffect (st : State) : State :=
  if negb (truthy API_KEY) then setError (Some SYSTEM_ALERT) st else st.

(** The synchronous part of [generateWithAI], up to the [await]. *)
Definition generateWithAI_sync (overrideInput : option jsstring)
  (closure : State) : Reaction :=
  let inputToUse := inputToUse overrideInput closure in
  if negb (truthy (trim inputToUse)) then nothing
  else if negb (truthy API_KEY) then
    {| updates := setError (Some ABORTED);
       deps_changed := false;
       calls := [] |}
  else
    {| updates := fun st =>
         setAnalysis None
           (setSyntaxErrors [] (setError None (setIsLoading true st)));
       deps_changed :=
         match analysis closure with Some _ => true | None => false end;
       calls := [generation_request inputToUse] |}.

(** [const data = JSON.parse(result.text)] and what follows it.
    Reading [dork] from [null] throws; on any other value that is not
    an object with a string [dork], [validatePayload] receives a
    non-string and its call of [payload.match] throws, before any
    state is set. *)
Definition on_parsed (inputToUse : jsstring) (now : N) (data : json)
  : Reaction :=
  match data with
  | JObject o =>
      match get (lit "dork") o with
      | Some (JString d) => succeeded inputToUse now o d
      | _ => failed (Some (TypeError_message data))
      end
  | _ => failed (Some (TypeError_message data))
  end.

(** The part of [generateWithAI] after the [await]. *)
Definition generateWithAI_resume (inputToUse : jsstring) (now : N)
  (outcome : Outcome) : Reaction :=
  match outcome with
  | Rejected message => failed message
  | Resolved text =>
      match text with
      | Some t =>
          if truthy t then
            match JSON_parse t with
            | inr data => on_parsed inputToUse now data
            | inl message => failed (Some message)
            end
          else
            {| updates := setIsLoading false; deps_changed := false;
               calls := [] |}
      | None =>
          {| updates := setIsLoading false; deps_changed := false;
             calls := [] |}
      end
  end.

(** One whole generation with nothing else happening in between: the
    synchronous part and, when a request went out, the continuation
    on its outcome.  The result is the final state and the requests
    made. *)
Definition generateWithAI (overrideInput : option jsstring) (now : N)
  (answer : Request -> Outcome) (st : State) : State * list Request :=
  let r := generateWithAI_sync overrideInput st in
  let pending := commit r st in
  match calls r with
  | [] => (pending, [])
  | req :: _ =>
      (commit
         (generateWithAI_resume (inputToUse overrideInput st) now
            (answer req))
         pending,
       calls r)
  end.

(** [handleApplyImprovement].  The result is [None] when
    [refinedObjective] holds a value that is not a string and may be
    truthy: such a value would be stored as the objective and make
    [generateWithAI] throw on [trim], outside the typed state. *)
Definition handleApplyImprovement (closure : State) : option Reaction :=
  match analysis closure with
  | None => Some nothing
  | Some a =>
      match get (lit "refinedObjective") a with
      | None => Some nothing
      | Some (JString x) =>
          if truthy x then
            let g := generateWithAI_sync (Some x) closure in
            Some {| updates := fun st => updates g (setNaturalInput x st);
                    deps_changed := deps_changed g;
                    calls := calls g |}
          else Some nothing
      | Some JNull | Some (JBool false) => Some nothing
      | Some _ => None
      end
  end.

End Runtime.

End Controller.
Import Controller.

(** ** Notions used to state the properties *)

Module Notions.

(** The Unicode block Cyrillic, U+0400..U+04FF. *)
Definition cyrillic_block (c : N) : bool := in_range 0x400 0x4FF c.

(** The operator tokens [DorkHighlighter] recognises, without their
    colon, in the order of its pattern. *)
Definition highlighted_operators : list jsstring :=
  [ lit "site"; lit "inurl"; lit "intitle"; lit "filetype"; lit "ext";
    lit "intext"; lit "-site"; lit "-inurl" ].

(** The number of double quotes of a string. *)
Definition quotes (s : jsstring) : nat := count_occ N.eq_dec s dquote.

Definition is_string (v : option json) : bool :=
  match v with Some (JString _) => true | _ => false end.

Definition is_string_array (v : option json) : bool :=
  match v with
  | Some (JArray items) =>
      forallb (fun x => match x with JString _ => true | _ => false end) items
  | _ => false
  end.

Definition risk_levels : list jsstring :=
  [lit "INFO"; lit "LOW"; lit "MEDIUM"; lit "HIGH"; lit "CRITICAL"].

Definition is_risk_level (v : option json) : bool :=
  match v with
  | Some (JString s) => existsb (key_eqb s) risk_levels
  | _ => false
  end.

(** A parsed object that has every property [responseSchema] requires,
    each of the declared type. *)
Definition conforms_to_schema (o : object) : bool :=
  is_string (get (lit "dork") o)
  && is_string (get (lit "explanation") o)
  && is_risk_level (get (lit "riskLevel") o)
  && is_string_array (get (lit "suggestedOperators") o)
  && is_string (get (lit "validationAnalysis") o)
  && is_string (get (lit "improvementReasoning") o)
  && is_string (get (lit "refinedObjective") o).

(** A parsed value from which the controller can take a query: an
    object whose [dork] is a string. *)
Definition has_string_dork (data : json) : bool :=
  match data with
  | JObject o => is_string (get (lit "dork") o)
  | _ => false
  end.

(** What the [catch] block appends to the UPLINK ERROR message. *)
Definition error_detail (message : option jsstring) : jsstring :=
  match message with
  | Some m => if truthy m then lit " [" ++ m ++ lit "]" else []
  | None => []
  end.

(** Recording a sequence of entries, oldest first, into a ledger. *)
Definition record_all (entries : list HistoryItem)
  (ledger : list HistoryItem) : list HistoryItem :=
  fold_left (fun h e => record e h) entries ledger.

End Notions.
Import Notions.

(** ** A sample run-time environment and sample responses

    Concrete data on which the properties are exercised. *)

Module Sample.

Definition quoted (s : string) : jsstring := [dquote] ++ lit s ++ [dquote].

Definition key : jsstring := lit "sample-api-key".

(** A response that carries the query and nothing else. *)
Definition dork_only_text : jsstring :=
  lit "{" ++ quoted "dork" ++ lit ":" ++ quoted "site:example.com" ++ lit "}".

Definition dork_only : object :=
  [ (lit "dork", JString (lit "site:example.com")) ].

(** A response whose [dork] is not a string. *)
Definition numeric_dork_text : jsstring :=
  lit "{" ++ quoted "dork" ++ lit ":42}".

Definition numeric_dork : object := [ (lit "dork", JNumber (lit "42")) ].

(** A complete response. *)
Definition edu_text : jsstring :=
  lit "{" ++ quoted "dork" ++ lit ":" ++ quoted "site:.edu filetype:env"
  ++ lit "," ++ quoted "explanation" ++ lit ":" ++ quoted "Exposed environment files."
  ++ lit "," ++ quoted "riskLevel" ++ lit ":" ++ quoted "HIGH"
  ++ lit "," ++ quoted "suggestedOperators" ++ lit ":["
  ++ quoted "intitle:index.of" ++ lit "," ++ quoted "inurl:config"
  ++ lit "," ++ quoted "-inurl:example" ++ lit "]"
  ++ lit "," ++ quoted "validationAnalysis" ++ lit ":" ++ quoted "Balanced."
  ++ lit "," ++ quoted "improvementReasoning" ++ lit ":" ++ quoted "Add backups."
  ++ lit "," ++ quoted "refinedObjective" ++ lit ":"
  ++ quoted "find exposed .env backups on edu domains" ++ lit "}".

Definition edu : object :=
  [ (lit "dork", JString (lit "site:.edu filetype:env"));
    (lit "explanation", JString (lit "Exposed environment files."));
    (lit "riskLevel", JString (lit "HIGH"));
    (lit "suggestedOperators",
      JArray [ JString (lit "intitle:index.of"); JString (lit "inurl:config");
               JString (lit "-inurl:example") ]);
    (lit "validationAnalysis", JString (lit "Balanced."));
    (lit "improvementReasoning", JString (lit "Add backups."));
    (lit "refinedObjective",
      JString (lit "find exposed .env backups on edu domains")) ].

(** A complete response whose refined objective is one space. *)
Definition blank_refinement_text : jsstring :=
  lit "{" ++ quoted "dork" ++ lit ":" ++ quoted "site:.edu filetype:env"
  ++ lit "," ++ quoted "explanation" ++ lit ":" ++ quoted "Exposed environment files."
  ++ lit "," ++ quoted "riskLevel" ++ lit ":" ++ quoted "HIGH"
  ++ lit "," ++ quoted "suggestedOperators" ++ lit ":[]"
  ++ lit "," ++ quoted "validationAnalysis" ++ lit ":" ++ quoted "Balanced."
  ++ lit "," ++ quoted "improvementReasoning" ++ lit ":" ++ quoted "Nothing to add."
  ++ lit "," ++ quoted "refinedObjective" ++ lit ":" ++ quoted " " ++ lit "}".

Definition blank_refinement : object :=
  [ (lit "dork", JString (lit "site:.edu filetype:env"));
    (lit "explanation", JString (lit "Exposed environment files."));
    (lit "riskLevel", JString (lit "HIGH"));
    (lit "suggestedOperators", JArray []);
    (lit "validationAnalysis", JString (lit "Balanced."));
    (lit "improvementReasoning", JString (lit "Nothing to add."));
    (lit "refinedObjective", JString (lit " ")) ].

(** [JSON.parse] on the sample texts; any other text is taken as
    malformed. *)
Definition parse : parser := fun t =>
  if key_eqb t dork_only_text then inr (JObject dork_only)
  else if key_eqb t numeric_dork_text then inr (JObject numeric_dork)
  else if key_eqb t edu_text then inr (JObject edu)
  else if key_eqb t blank_refinement_text then inr (JObject blank_refinement)
  else inl (lit "Unexpected token in JSON").

Definition type_error : json -> jsstring :=
  fun _ => lit "payload.match is not a function".

Definition objective : jsstring :=
  lit "find exposed .env files on edu domains".

(** A session with a credential, in which the objective has been
    typed. *)
Definition typed : State :=
  setNaturalInput objective (mountEffect key initialState).

(** The AI boundary answering every request with the same text. *)
Definition answering (text : jsstring) : Request -> Outcome :=
  fun _ => Resolved (Some text).

(** One generation from [typed] answered with [text] at time 7. *)
Definition run (text : jsstring) : State * list Request :=
  generateWithAI key parse type_error None 7 (answering text) typed.

(** The session after that generation. *)
Definition after (text : jsstring) : State := fst (run text).

(** Sessions without a credential, after the mount effect, with an
    objective typed: a real one, and one space. *)
Definition unconfigured : State :=
  setNaturalInput objective (mountEffect [] initialState).

Definition unconfigured_space : State :=
  setNaturalInput (lit " ") (mountEffect [] initialState).

(** A session with a credential and one space typed as the objective. *)
Definition space_typed : State :=
  setNaturalInput (lit " ") (mountEffect key initialState).

End Sample.

(** ** The launch link ([googleLink])

    [encodeURIComponent] as ECMAScript defines it: code units of the
    unreserved set stand for themselves, every other code point is
    written as the percent-escaped octets of its UTF-8 form, and an
    unpaired surrogate raises a URIError (here [None]). *)

Module Uri.

(** Letters, digits and the marks [- _ . ! ~ * ' ( )]. *)
Definition unreserved (c : N) : bool :=
  in_range 65 90 c || in_range 97 122 c || in_range 48 57 c
  || existsb (N.eqb c) [45; 95; 46; 33; 126; 42; 39; 40; 41]%N.

Definition is_lead (c : N) : bool := in_range 0xD800 0xDBFF c.
Definition is_trail (c : N) : bool := in_range 0xDC00 0xDFFF c.

(** The code point of a surrogate pair. *)
Definition pair_code_point (lead trail : N) : N :=
  (0x10000 + (lead - 0xD800) * 0x400 + (trail - 0xDC00))%N.

(** The octets of the UTF-8 form of a code point, each masked to a
    byte. *)
Definition utf8 (cp : N) : list N :=
  if (cp <? 0x80)%N then [cp]
  else if (cp <? 0x800)%N then
    [0xC0 + (cp / 0x40) mod 0x20; 0x80 + cp mod 0x40]%N
  else if (cp <? 0x10000)%N then
    [0xE0 + (cp / 0x1000) mod 0x10; 0x80 + (cp / 0x40) mod 0x40;
     0x80 + cp mod 0x40]%N
  else
    [0xF0 + (cp / 0x40000) mod 0x8; 0x80 + (cp / 0x1000) mod 0x40;
     0x80 + (cp / 0x40) mod 0x40; 0x80 + cp mod 0x40]%N.

(** An upper-case hexadecimal digit. *)
Definition hex_digit (d : N) : N :=
  if (d <? 10)%N then (48 + d)%N else (55 + d)%N.

(** One octet as a percent sign and two digits. *)
Definition percent (octet : N) : jsstring :=
  [37%N; hex_digit ((octet / 16) mod 16); hex_digit (octet mod 16)].

Definition escape (cp : N) : jsstring := flat_map percent (utf8 cp).

Fixpoint encodeURIComponent (s : jsstring) : option jsstring :=
  match s with
  | [] => Some []
  | c :: s' =>
      if unreserved c then option_map (cons c) (encodeURIComponent s')
      else if is_lead c then
        match s' with
        | t :: s'' =>
            if is_trail t
            then option_map (app (escape (pair_code_point c t)))
                   (encodeURIComponent s'')
            else None
        | [] => None
        end
      else if is_trail c then None
      else option_map (app (escape c)) (encodeURIComponent s')
  end.

Definition SEARCH_URL : jsstring := lit "https://www.google.com/search?q=".

(** [googleLink], computed on every render from the query on display. *)
Definition googleLink (dork : jsstring) : option jsstring :=
  option_map (app SEARCH_URL) (encodeURIComponent dork).

(** The [href] of the LAUNCH anchor. *)
Definition launch_href (dork : jsstring) : option jsstring :=
  match googleLink dork with
  | Some link => Some (if truthy dork then link else lit "#")
  | None => None
  end.

(** What an encoded component is made of: unreserved units and the
    percent sign. *)
Definition link_unit (c : N) : bool := unreserved c || (c =? 37)%N.

(** A string in which every surrogate is half of a pair. *)
Inductive WellPaired : jsstring -> Prop :=
| WP_nil : WellPaired []
| WP_unit c s :
    is_lead c = false -> is_trail c = false -> WellPaired s ->
    WellPaired (c :: s)
| WP_pair l t s :
    is_lead l = true -> is_trail t = true -> WellPaired s ->
    WellPaired (l :: t :: s).

(** The code units of a string are 16 bits wide. *)
Definition code_units (s : jsstring) : Prop :=
  Forall (fun c => (c < 0x10000)%N) s.

End Uri.
Import Uri.

(** ** The syntax highlighter ([DorkHighlighter])

    [String.prototype.split] needs the match a backtracking engine finds
    first, not just whether one exists: [runs] lists the matches of a
    pattern at the start of a string in the order the engine tries
    them. *)

Module Highlighter.

(** [r*] over the matches [body] of [r]: greedy, an iteration that
    matches the empty string is given up, the empty match comes last.
    Every iteration consumes a code unit, so the length of the string
    bounds their number. *)
Fixpoint star_runs (body : jsstring -> list (jsstring * jsstring))
  (fuel : nat) (s : jsstring) : list (jsstring * jsstring) :=
  match fuel with
  | 0 => [([], s)]
  | S n =>
      flat_map
        (fun x =>
           match fst x with
           | [] => []
           | _ :: _ =>
               map (fun y => (fst x ++ fst y, snd y))
                 (star_runs body n (snd x))
           end)
        (body s)
      ++ [([], s)]
  end.

(** The matches of [r] at the start of [s], each with the rest of the
    string, in the order of priority. *)
Fixpoint runs (r : regex) (s : jsstring) : list (jsstring * jsstring) :=
  match r with
  | Void => []
  | Eps => [([], s)]
  | Chars p =>
      match s with
      | c :: s' => if p c then [([c], s')] else []
      | [] => []
      end
  | Alt r1 r2 => runs r1 s ++ runs r2 s
  | Cat r1 r2 =>
      flat_map
        (fun x => map (fun y => (fst x ++ fst y, snd y)) (runs r2 (snd x)))
        (runs r1 s)
  | Star r1 => star_runs (runs r1) (List.length s) s
  end.

(** The match of a sticky [exec] at the start of [s]. *)
Definition exec_at (r : regex) (s : jsstring) : option (jsstring * jsstring) :=
  hd_error (runs r s).

(** The loop of [RegExp.prototype[Symbol.split]] for a pattern that is
    one capture group: [piece] is the text from the end of the last
    separator to the position tried, [s] the text from that position.
    A match that is empty and starts where the last separator ended is
    skipped.  Two rounds per code unit are enough. *)
Fixpoint split_loop (re : regex) (fuel : nat) (piece s : jsstring)
  : list jsstring :=
  match fuel with
  | 0 => [piece ++ s]
  | S n =>
      match s with
      | [] => [piece]
      | c :: s' =>
          match exec_at re s with
          | None => split_loop re n (piece ++ [c]) s'
          | Some (m, rest) =>
              match m, piece with
              | [], [] => split_loop re n (piece ++ [c]) s'
              | _, _ => piece :: m :: split_loop re n [] rest
              end
          end
      end
  end.

(** [s.split(re)] *)
Definition split (re : regex) (s : jsstring) : list jsstring :=
  match s with
  | [] => match exec_at re [] with Some _ => [] | None => [[]] end
  | _ :: _ => split_loop re (2 * List.length s + 1) [] s
  end.

Definition operator_tokens : list jsstring :=
  [ lit "site:"; lit "inurl:"; lit "intitle:"; lit "filetype:"; lit "ext:";
    lit "intext:"; lit "-site:"; lit "-inurl:" ].

Definition any_of (words : list jsstring) : regex :=
  fold_right (fun w r => Alt (Str w) r) Void words.

(** The pattern the query is split by: a run of white space, a bar, a
    parenthesis or an operator token. *)
Definition re_split : regex :=
  Alt (Plus (Chars is_space))
    (Alt (One 124) (Alt (One 40) (Alt (One 41) (any_of operator_tokens)))).

Definition re_operator : regex := any_of operator_tokens.

Definition re_bracket : regex := Alt (One 124) (Alt (One 40) (One 41)).

(** The dot of a pattern: any code unit but a line terminator. *)
Definition dot (c : N) : bool :=
  negb ((c =? 10)%N || (c =? 13)%N || (c =? 0x2028)%N || (c =? 0x2029)%N).

(** A double quote, anything, a double quote. *)
Definition re_phrase : regex :=
  Cat (One dquote) (Cat (Star (Chars dot)) (One dquote)).

(** The four looks of a part: [text-info fw-bold], [text-warning
    fw-bold], [text-success] and [text-light]. *)
Inductive Style : Type := Operator | Bracket | Phrase | Plain.

Definition style_of (part : jsstring) : Style :=
  if matches re_operator part then Operator
  else if matches re_bracket part then Bracket
  else if matches re_phrase part then Phrase
  else Plain.

(** The spans [DorkHighlighter] renders; [None] is the placeholder shown
    for an empty query. *)
Definition DorkHighlighter (dork : jsstring) : option (list (Style * jsstring)) :=
  if truthy dork
  then Some (map (fun part => (style_of part, part)) (split re_split dork))
  else None.

(** The rounds the loop of [split] needs at most from a given point. *)
Definition rounds_needed (piece s : jsstring) : nat :=
  match s with
  | [] => 0
  | _ :: _ =>
      2 * List.length s + match piece with [] => 0 | _ :: _ => 1 end
  end.

(** A match taken at the start of [s]: a prefix of [s] and a word of
    the pattern. *)
Definition run_ok (r : regex) (s : jsstring) (x : jsstring * jsstring) : Prop :=
  s = fst x ++ snd x /\ Matches r (fst x).

End Highlighter.
Import Highlighter.

(** ** The other handlers of [App] *)

Module Handlers.

Definition setIsOptimizing (v : bool) (st : State) : State :=
  {| naturalInput := naturalInput st; dork := dork st;
     analysis := analysis st; history := history st;
     isLoading := isLoading st; isOptimizing := v; error := error st;
     syntaxErrors := syntaxErrors st; showManual := showManual st;
     copyFeedback := copyFeedback st; manualParams := manualParams st |}.

Definition setShowManual (v : bool) (st : State) : State :=
  {| naturalInput := naturalInput st; dork := dork st;
     analysis := analysis st; history := history st;
     isLoading := isLoading st; isOptimizing := isOptimizing st;
     error := error st; syntaxErrors := syntaxErrors st; showManual := v;
     copyFeedback := copyFeedback st; manualParams := manualParams st |}.

Definition setCopyFeedback (v : bool) (st : State) : State :=
  {| naturalInput := naturalInput st; dork := dork st;
     analysis := analysis st; history := history st;
     isLoading := isLoading st; isOptimizing := isOptimizing st;
     error := error st; syntaxErrors := syntaxErrors st;
     showManual := showManual st; copyFeedback := v;
     manualParams := manualParams st |}.

(** *** [handleOptimizePrompt] *)

Definition API_KEY_MISSING : jsstring := lit "API Key missing.".

Definition OPTIMIZATION_FAILED : jsstring :=
  lit "Optimization failed. Check connectivity.".

Definition deep_indent : jsstring := lit "            ".

Definition enhance_head : jsstring :=
  join [newline]
    [ lit "Act as a Red Team Lead. Rewrite the following user request into a precise, high-context technical objective for a Google Dork generation AI. ";
      deep_indent;
      deep_indent ++ lit "Current Request: " ++ [dquote] ].

Definition enhance_tail : jsstring :=
  join [newline]
    [ [dquote];
      deep_indent;
      deep_indent ++ lit "Rules:";
      deep_indent ++ lit "1. Use professional cybersecurity terminology (GHDB).";
      deep_indent ++ lit "2. Be specific about targets, file extensions, and vulnerability types (SQLi, IDOR, Exposed Env, etc.).";
      deep_indent ++ lit "3. Keep it concise but detailed enough for an AI to generate the perfect GHDB query.";
      deep_indent ++ lit "4. Output ONLY the rewritten prompt text." ].

Definition enhance_prompt (naturalInput : jsstring) : jsstring :=
  enhance_head ++ naturalInput ++ enhance_tail.

(** The enhancement request: a model and a prompt, no schema. *)
Record Enhancement : Type := {
  enhance_model : jsstring;
  enhance_contents : jsstring
}.

Definition enhancement_request (naturalInput : jsstring) : Enhancement :=
  {| enhance_model := lit "gemini-2.5-flash";
     enhance_contents := enhance_prompt naturalInput |}.

(** What a handler does besides updating the state. *)
Inductive Effect : Type :=
| CallGenerate (request : Request)
| CallEnhance (request : Enhancement)
| ClipboardWrite (text : jsstring)
| SetTimeout (milliseconds : N).

(** The part of [handleOptimizePrompt] after the [await]; it touches
    neither [analysis] nor [manualParams]. *)
Definition handleOptimizePrompt_resume (outcome : Outcome) (st : State)
  : State :=
  match outcome with
  | Resolved (Some text) =>
      if truthy text
      then setIsOptimizing false (setNaturalInput (trim text) st)
      else setIsOptimizing false st
  | Resolved None => setIsOptimizing false st
  | Rejected _ =>
      setIsOptimizing false (setError (Some OPTIMIZATION_FAILED) st)
  end.

(** *** Loading an entry of the history

    [item.response.dork] is handed to [validatePayload], which throws on
    anything but a string: [None]. *)
Definition handleHistoryClick (item : HistoryItem) : option Reaction :=
  match get (lit "dork") (response item) with
  | Some (JString d) =>
      Some {| updates := fun st =>
                setSyntaxErrors (validatePayload d)
                  (setAnalysis (Some (response item))
                    (setDork d (setNaturalInput (input item) st)));
              deps_changed := true;
              calls := [] |}
  | _ => None
  end.

(** *** The buttons of the suggested operators

    The [index]-th element of [analysis.suggestedOperators], when that
    is an array and the element a string. *)
Definition vector_at (a : object) (index : nat) : option jsstring :=
  match get (lit "suggestedOperators") a with
  | Some (JArray items) =>
      match nth_error items index with
      | Some (JString op) => Some op
      | _ => None
      end
  | _ => None
  end.

(** [setNaturalInput(prev => `${prev} + ${op}`)] *)
Definition handleVectorClick (op : jsstring) (st : State) : State :=
  setNaturalInput (naturalInput st ++ lit " + " ++ op) st.

(** *** [handleCopy] and the timer it starts *)
Definition handleCopy (closure : State) : (State -> State) * list Effect :=
  if negb (truthy (dork closure)) then (fun st => st, [])
  else (setCopyFeedback true, [ClipboardWrite (dork closure); SetTimeout 2000]).

Section Runtime.

Variable API_KEY : jsstring.
Variable JSON_parse : parser.
Variable TypeError_message : json -> jsstring.

(** The synchronous part of [handleOptimizePrompt]: the updates and the
    request, if one goes out. *)
Definition handleOptimizePrompt_sync (closure : State)
  : (State -> State) * list Enhancement :=
  if negb (truthy (trim (naturalInput closure))) then (fun st => st, [])
  else if negb (truthy API_KEY) then
    (setError (Some API_KEY_MISSING), [])
  else
    (fun st => setError None (setIsOptimizing true st),
     [enhancement_request (naturalInput closure)]).

(** *** The session as a transition system

    What the user and the AI boundary can make happen.  A settled call
    is an event of its own: it may arrive at any time after the call. *)
Inductive Event : Type :=
| Typed (value : jsstring)
| ManualChanged (name : ManualField) (value : jsstring)
| GenerateRequested
| GenerateSettled (inputToUse : jsstring) (now : N) (outcome : Outcome)
| EnhanceRequested
| EnhanceSettled (outcome : Outcome)
| ImproveClicked
| HistoryClicked (index : nat)
| VectorClicked (index : nat)
| ManualToggled
| CopyClicked
| CopyTimedOut.

(** The state after an event and the effects of its handler; [None]
    when the event cannot happen in that state (no such entry or
    button) or leaves the typed state. *)
Definition step (ev : Event) (st : State) : option (State * list Effect) :=
  match ev with
  | Typed value => Some (setNaturalInput value st, [])
  | ManualChanged name value =>
      Some (commit (handleManualChange name value st) st, [])
  | GenerateRequested =>
      let r := generateWithAI_sync API_KEY None st in
      Some (commit r st, map CallGenerate (calls r))
  | GenerateSettled inputToUse now outcome =>
      Some (commit
              (generateWithAI_resume JSON_parse TypeError_message inputToUse
                 now outcome) st,
            [])
  | EnhanceRequested =>
      let r := handleOptimizePrompt_sync st in
      Some (fst r st, map CallEnhance (snd r))
  | EnhanceSettled outcome => Some (handleOptimizePrompt_resume outcome st, [])
  | ImproveClicked =>
      match handleApplyImprovement API_KEY st with
      | Some r => Some (commit r st, map CallGenerate (calls r))
      | None => None
      end
  | HistoryClicked index =>
      match nth_error (history st) index with
      | Some item =>
          match handleHistoryClick item with
          | Some r => Some (commit r st, [])
          | None => None
          end
      | None => None
      end
  | VectorClicked index =>
      match analysis st with
      | Some a =>
          match vector_at a index with
          | Some op => Some (handleVectorClick op st, [])
          | None => None
          end
      | None => None
      end
  | ManualToggled => Some (setShowManual (negb (showManual st)) st, [])
  | CopyClicked =>
      let r := handleCopy st in Some (fst r st, snd r)
  | CopyTimedOut => Some (setCopyFeedback false st, [])
  end.

(** The states a session can be in. *)
Inductive Reachable : State -> Prop :=
| Reachable_mount : Reachable (mountEffect API_KEY initialState)
| Reachable_step ev st st' effects :
    Reachable st -> step ev st = Some (st', effects) -> Reachable st'.

(** The state after a sequence of events, oldest first. *)
Fixpoint replay (events : list Event) (st : State) : option State :=
  match events with
  | [] => Some st
  | ev :: rest =>
      match step ev st with
      | Some (st', _) => replay rest st'
      | None => None
      end
  end.

End Runtime.

(** The key the build injects: [process.env.API_KEY || env.API_KEY],
    or the empty string ([vite.config.ts]). *)
Definition injected_key (process_env loaded_env : option jsstring) : jsstring :=
  let apiKey :=
    match process_env with
    | Some k => if truthy k then Some k else loaded_env
    | None => loaded_env
    end in
  match apiKey with
  | Some k => if truthy k then k else []
  | None => []
  end.

(** Two states show the same result: query, analysis, issues, ledger,
    manual fields and the busy flag of the generation. *)
Definition same_result (st st' : State) : Prop :=
  dork st' = dork st /\ analysis st' = analysis st /\
  history st' = history st /\ syntaxErrors st' = syntaxErrors st /\
  manualParams st' = manualParams st /\ isLoading st' = isLoading st.

(** The continuation of a generation that only clears the busy flag. *)
Definition idle : Reaction :=
  {| updates := setIsLoading false; deps_changed := false; calls := [] |}.

(** The query the manual fields compose. *)
Definition composed (m : ManualParams) : jsstring :=
  join (lit " ") (manual_parts m).

(** An entry that can be loaded back: its response has a string
    [dork]. *)
Definition loadable (item : HistoryItem) : Prop :=
  exists d, get (lit "dork") (response item) = Some (JString d).

(** While a result is on display, the query shown is the result's and
    the issues shown are the validator's issues for it. *)
Definition result_consistent (st : State) : Prop :=
  forall a,
    analysis st = Some a ->
    get (lit "dork") a = Some (JString (dork st)) /\
    syntaxErrors st = validatePayload (dork st).

(** In manual mode with a field filled in, the query shown is the one
    the fields compose. *)
Definition manual_consistent (st : State) : Prop :=
  analysis st = None ->
  manual_parts (manualParams st) <> [] ->
  dork st = composed (manualParams st).

Definition Invariant (st : State) : Prop :=
  List.length (history st) <= 10 /\
  (forall item, In item (history st) -> loadable item) /\
  result_consistent st /\
  manual_consistent st.

(** An effect that reaches the AI boundary. *)
Definition is_call (e : Effect) : bool :=
  match e with
  | CallGenerate _ | CallEnhance _ => true
  | ClipboardWrite _ | SetTimeout _ => false
  end.

(** The events of typing, enhancing, the operator buttons, the manual
    panel toggle and copying. *)
Definition passive (ev : Event) : bool :=
  match ev with
  | Typed _ | EnhanceRequested | EnhanceSettled _ | VectorClicked _
  | ManualToggled | CopyClicked | CopyTimedOut => true
  | ManualChanged _ _ | GenerateRequested | GenerateSettled _ _ _
  | ImproveClicked | HistoryClicked _ => false
  end.

End Handlers.
Import Handlers.

(* ================================================================== *)
(** * Part II: properties                                              *)
(* ================================================================== *)

(** ** JavaScript strings *)

Module JSFacts.

Lemma truthy_false (s : jsstring) : truthy s = false <-> s = [].
Proof. destruct s; simpl; split; congruence. Qed.

Lemma truthy_true (s : jsstring) : truthy s = true <-> s <> [].
Proof. destruct s; simpl; split; congruence. Qed.

Lemma trimStart_nil_iff (s : jsstring) : trimStart s = [] <-> blank s = true.
Proof.
  unfold blank. induction s as [|c s IH]; simpl.
  - tauto.
  - destruct (is_space c); simpl.
    + exact IH.
    + split; discriminate.
Qed.

Lemma blank_trimStart (s : jsstring) :
  blank s = true -> trimStart s = [].
Proof. apply trimStart_nil_iff. Qed.

(** [trim] returns the empty string exactly on the strings that are
    empty or hold white space only. *)
Lemma trim_nil_iff (s : jsstring) : trim s = [] <-> blank s = true.
Proof.
  unfold trim, trimEnd. split.
  - intros H. apply trimStart_nil_iff.
    apply (f_equal (@rev N)) in H. rewrite rev_involutive in H. simpl in H.
    apply trimStart_nil_iff in H. unfold blank in H.
    rewrite forallb_forall in H.
    destruct (trimStart s) as [|c t] eqn:E; [reflexivity|].
    assert (Hc : is_space c = true)
      by (apply H, in_rev; rewrite rev_involutive; left; reflexivity).
    clear H. exfalso. revert E Hc. clear.
    induction s as [|d s IH]; simpl; [discriminate|].
    destruct (is_space d) eqn:Ed; [exact IH|].
    intros [= -> _]. congruence.
  - intros H. rewrite (blank_trimStart s H). reflexivity.
Qed.

Lemma trim_truthy_iff (s : jsstring) :
  truthy (trim s) = true <-> blank s = false.
Proof.
  rewrite truthy_true, trim_nil_iff. destruct (blank s); split; congruence.
Qed.

End JSFacts.

(** ** The regular-expression engine agrees with the language *)

Module RegexFacts.

Create HintDb re.
#[local] Hint Constructors Matches : re.

(** Inversion of [Matches], one lemma per constructor of [regex]. *)

Lemma Matches_Void_inv (s : jsstring) : ~ Matches Void s.
Proof. intros H. inversion H. Qed.

Lemma Matches_Eps_inv (s : jsstring) : Matches Eps s -> s = [].
Proof. intros H. inversion H. reflexivity. Qed.

Lemma Matches_Chars (p : N -> bool) (s : jsstring) :
  Matches (Chars p) s <-> exists c, s = [c] /\ p c = true.
Proof.
  split.
  - intros H. inversion H; subst. eauto.
  - intros (c & -> & H). apply MChars, H.
Qed.

Lemma Matches_Alt_inv (r1 r2 : regex) (s : jsstring) :
  Matches (Alt r1 r2) s -> Matches r1 s \/ Matches r2 s.
Proof. intros H. inversion H; subst; auto. Qed.

Lemma Matches_Cat_inv (r1 r2 : regex) (s : jsstring) :
  Matches (Cat r1 r2) s ->
  exists s1 s2, s = s1 ++ s2 /\ Matches r1 s1 /\ Matches r2 s2.
Proof. intros H. inversion H; subst. eauto. Qed.

Lemma MCat_cons (r1 r2 : regex) (c : N) (s1 s2 : jsstring) :
  Matches r1 (c :: s1) -> Matches r2 s2 -> Matches (Cat r1 r2) (c :: s1 ++ s2).
Proof. intros H1 H2. apply (MCat H1 H2). Qed.

Lemma MCat_nil_l (r1 r2 : regex) (s : jsstring) :
  Matches r1 [] -> Matches r2 s -> Matches (Cat r1 r2) s.
Proof. intros H1 H2. apply (MCat H1 H2). Qed.

Lemma nullable_spec (r : regex) : nullable r = true <-> Matches r [].
Proof.
  induction r as [| |p|r1 IH1 r2 IH2|r1 IH1 r2 IH2|r IH]; simpl.
  - split; [discriminate|]. intros H. destruct (Matches_Void_inv H).
  - split; auto with re.
  - split; [discriminate|]. intros H.
    apply Matches_Chars in H as (c & E & _). discriminate.
  - rewrite orb_true_iff, IH1, IH2. split.
    + intros [H|H]; auto with re.
    + apply Matches_Alt_inv.
  - rewrite andb_true_iff, IH1, IH2. split.
    + intros [H1 H2]. apply MCat_nil_l; assumption.
    + intros H. apply Matches_Cat_inv in H as (s1 & s2 & E & H1 & H2).
      symmetry in E. apply app_eq_nil in E as [-> ->]. auto.
  - split; auto with re.
Qed.

(** A non-empty word of [r*] starts with a non-empty word of [r]. *)
Lemma star_cons_inv_gen (r' : regex) (w : jsstring) :
  Matches r' w ->
  forall r c s, r' = Star r -> w = c :: s ->
  exists s1 s2, s = s1 ++ s2 /\ Matches r (c :: s1) /\ Matches (Star r) s2.
Proof.
  induction 1 as [| | | | | |r0 w1 w2 H1 _ H2 IH2]; intros rr cc ss Er Ew;
    try discriminate.
  injection Er as ->.
  destruct w1 as [|d w1]; simpl in Ew.
  - apply IH2; [reflexivity|exact Ew].
  - injection Ew as -> <-. exists w1, w2. auto.
Qed.

Lemma star_cons_inv (r : regex) (c : N) (s : jsstring) :
  Matches (Star r) (c :: s) ->
  exists s1 s2, s = s1 ++ s2 /\ Matches r (c :: s1) /\ Matches (Star r) s2.
Proof. intros H. exact (star_cons_inv_gen H eq_refl eq_refl). Qed.

Lemma deriv_spec (c : N) (r : regex) (s : jsstring) :
  Matches (deriv c r) s <-> Matches r (c :: s).
Proof.
  revert s. induction r as [| |p|r1 IH1 r2 IH2|r1 IH1 r2 IH2|r IH];
    intros s; simpl.
  - split; intros H; destruct (Matches_Void_inv H).
  - split; intros H; [destruct (Matches_Void_inv H)|].
    apply Matches_Eps_inv in H. discriminate.
  - rewrite Matches_Chars. destruct (p c) eqn:Ep; split; intros H.
    + apply Matches_Eps_inv in H as ->. exists c. auto.
    + destruct H as (d & [= -> ->] & _). constructor.
    + destruct (Matches_Void_inv H).
    + destruct H as (d & [= -> ->] & Hd). congruence.
  - split; intros H; apply Matches_Alt_inv in H as [H|H].
    + apply MAltL, IH1, H.
    + apply MAltR, IH2, H.
    + apply MAltL, IH1, H.
    + apply MAltR, IH2, H.
  - assert (Hcat : Matches (Cat (deriv c r1) r2) s ->
                   Matches (Cat r1 r2) (c :: s)).
    { intros H. apply Matches_Cat_inv in H as (s1 & s2 & E & H1 & H2).
      subst s. apply MCat_cons; [apply IH1|]; assumption. }
    assert (Hinv : Matches (Cat r1 r2) (c :: s) ->
                   Matches (Cat (deriv c r1) r2) s \/
                   (Matches r1 [] /\ Matches r2 (c :: s))).
    { intros H. apply Matches_Cat_inv in H as (s1 & s2 & E & H1 & H2).
      destruct s1 as [|d s1]; simpl in E.
      - right. subst s2. auto.
      - injection E as <- E. subst s. left.
        apply MCat; [apply IH1|]; assumption. }
    destruct (nullable r1) eqn:En.
    + split; intros H.
      * apply Matches_Alt_inv in H as [H|H]; [auto|].
        apply MCat_nil_l; [apply nullable_spec, En|apply IH2, H].
      * apply Hinv in H as [H|[_ H]]; [apply MAltL, H|apply MAltR, IH2, H].
    + split; intros H; [auto|].
      apply Hinv in H as [H|[H _]]; [exact H|].
      apply nullable_spec in H. congruence.
  - split; intros H.
    + apply Matches_Cat_inv in H as (s1 & s2 & E & H1 & H2). subst s.
      change (c :: s1 ++ s2) with ((c :: s1) ++ s2).
      apply MStarApp; [apply IH|]; assumption.
    + apply star_cons_inv in H as (s1 & s2 & E & Ha & Hb). subst s.
      apply MCat; [apply IH|]; assumption.
Qed.

Lemma matches_spec (r : regex) (s : jsstring) :
  matches r s = true <-> Matches r s.
Proof.
  revert r. induction s as [|c s IH]; intros r; simpl.
  - apply nullable_spec.
  - rewrite IH. apply deriv_spec.
Qed.

Lemma lookingAt_spec (r : regex) (s : jsstring) :
  lookingAt r s = true <-> exists m b, s = m ++ b /\ Matches r m.
Proof.
  revert r. induction s as [|c s IH]; intros r; simpl.
  - rewrite orb_false_r, nullable_spec. split.
    + intros H. exists [], []. auto.
    + intros (m & b & E & H). symmetry in E.
      apply app_eq_nil in E as [-> _]. exact H.
  - rewrite orb_true_iff, nullable_spec, IH. split.
    + intros [H|(m & b & -> & H)].
      * exists [], (c :: s). auto.
      * exists (c :: m), b. split; [reflexivity|apply deriv_spec, H].
    + intros (m & b & E & H). destruct m as [|d m]; simpl in E.
      * left. exact H.
      * injection E as <- ->. right. exists m, b.
        split; [reflexivity|apply deriv_spec, H].
Qed.

(** [test]: some substring of [s] is a word of [r]. *)
Lemma test_spec (r : regex) (s : jsstring) :
  test r s = true <-> exists a m b, s = a ++ m ++ b /\ Matches r m.
Proof.
  induction s as [|c s IH]; simpl.
  - rewrite !orb_false_r, nullable_spec. split.
    + intros H. exists [], [], []. auto.
    + intros (a & m & b & E & H). symmetry in E.
      apply app_eq_nil in E as [_ E]. apply app_eq_nil in E as [-> _].
      exact H.
  - rewrite orb_true_iff, IH.
    pose proof (lookingAt_spec r (c :: s)) as L. simpl in L. rewrite L.
    clear L. split.
    + intros [(m & b & E & H)|(a & m & b & -> & H)].
      * exists [], m, b. auto.
      * exists (c :: a), m, b. auto.
    + intros (a & m & b & E & H). destruct a as [|d a]; simpl in E.
      * left. exists m, b. auto.
      * injection E as <- ->. right. exists a, m, b. auto.
Qed.

Lemma Matches_One (c : N) (s : jsstring) : Matches (One c) s <-> s = [c].
Proof.
  unfold One. rewrite Matches_Chars. split.
  - intros (d & -> & H). apply N.eqb_eq in H. congruence.
  - intros ->. exists c. split; [reflexivity|apply N.eqb_refl].
Qed.

Lemma Matches_Str (w s : jsstring) : Matches (Str w) s <-> s = w.
Proof.
  revert s. induction w as [|c w IH]; intros s; simpl.
  - split; intros H; [inversion H; reflexivity | subst; constructor].
  - split.
    + intros H. apply Matches_Cat_inv in H as (s1 & s2 & -> & Ha & Hb).
      apply Matches_One in Ha. apply IH in Hb. subst. reflexivity.
    + intros ->. change (c :: w) with ([c] ++ w).
      apply MCat; [apply Matches_One|apply IH]; reflexivity.
Qed.

(** A word of [p+] starts with a code unit of the class [p]. *)
Lemma Matches_Plus_Chars (p : N -> bool) (s : jsstring) :
  Matches (Plus (Chars p)) s ->
  exists c rest, s = c :: rest /\ p c = true.
Proof.
  intros H. apply Matches_Cat_inv in H as (s1 & s2 & -> & Ha & Hb).
  apply Matches_Chars in Ha as (c & -> & Hc). exists c, s2. auto.
Qed.

Lemma Matches_Plus_one (p : N -> bool) (c : N) :
  p c = true -> Matches (Plus (Chars p)) [c].
Proof.
  intros H. change [c] with ([c] ++ []).
  apply MCat; [apply MChars, H|apply MStarNil].
Qed.

(** A class is found in [s] exactly when [s] holds one of its units. *)
Lemma test_Chars (p : N -> bool) (s : jsstring) :
  test (Chars p) s = true <-> exists c, In c s /\ p c = true.
Proof.
  rewrite test_spec. split.
  - intros (a & m & b & -> & H). apply Matches_Chars in H as (c & -> & Hc).
    exists c. split; [|exact Hc].
    apply in_or_app. right. left. reflexivity.
  - intros (c & Hin & Hc). apply in_split in Hin as (a & b & ->).
    exists a, [c], b. split; [reflexivity|apply MChars, Hc].
Qed.

End RegexFacts.

(** ** The payload validator *)

Module ValidatorFacts.
Import JSFacts RegexFacts.

Lemma issues_distinct :
  CRITICAL_CYRILLIC <> SYNTAX_ERROR_QUOTES /\
  CRITICAL_CYRILLIC <> SYNTAX_WARNING_SPACE /\
  SYNTAX_ERROR_QUOTES <> SYNTAX_WARNING_SPACE.
Proof. repeat split; vm_compute; discriminate. Qed.

Lemma In_push_if (b : bool) (issue x : jsstring) (issues : list jsstring) :
  In x (push_if b issue issues) <-> In x issues \/ (b = true /\ x = issue).
Proof.
  unfold push_if. destruct b.
  - rewrite in_app_iff. simpl. intuition congruence.
  - intuition congruence.
Qed.

(** No check short-circuits another: an issue is returned exactly when
    its own check fires. *)
Lemma In_validatePayload (payload x : jsstring) :
  In x (validatePayload payload) <->
  (test re_cyrillic payload = true /\ x = CRITICAL_CYRILLIC) \/
  (negb (quoteCount payload mod 2 =? 0) = true /\ x = SYNTAX_ERROR_QUOTES) \/
  (test re_spacing payload = true /\ x = SYNTAX_WARNING_SPACE).
Proof.
  unfold validatePayload. cbv zeta. rewrite !In_push_if. simpl.
  intuition congruence.
Qed.

Lemma cyrillic_class_spec (c : N) :
  cyrillic_class c = true <->
  (0x410 <= c <= 0x44F)%N \/ c = 0x401%N \/ c = 0x451%N.
Proof.
  unfold cyrillic_class, in_range.
  rewrite !orb_true_iff, !andb_true_iff, !N.leb_le, !N.eqb_eq. lia.
Qed.

Lemma cyrillic_class_in_block (c : N) :
  cyrillic_class c = true -> cyrillic_block c = true.
Proof.
  rewrite cyrillic_class_spec. unfold cyrillic_block, in_range.
  rewrite andb_true_iff, !N.leb_le. lia.
Qed.

Lemma critical_iff_test (payload : jsstring) :
  In CRITICAL_CYRILLIC (validatePayload payload) <->
  test re_cyrillic payload = true.
Proof.
  rewrite In_validatePayload. destruct issues_distinct as (A & B & C).
  intuition congruence.
Qed.

Lemma length_filter_eqb (d : N) (s : jsstring) :
  List.length (filter (N.eqb d) s) = count_occ N.eq_dec s d.
Proof.
  induction s as [|c s IH]; [reflexivity|].
  cbn [filter count_occ].
  destruct (N.eq_dec c d) as [->|Hne].
  - rewrite N.eqb_refl. cbn [List.length]. congruence.
  - destruct (N.eqb_spec d c); [congruence|exact IH].
Qed.

Lemma quoteCount_quotes (payload : jsstring) :
  quoteCount payload = quotes payload.
Proof.
  unfold quoteCount, match_global_unit, quotes.
  rewrite <- length_filter_eqb.
  destruct (filter (N.eqb dquote) payload); [reflexivity|].
  apply length_map.
Qed.

Lemma odd_mod2 (n : nat) : negb (n mod 2 =? 0) = Nat.odd n.
Proof.
  rewrite (Nat.div_mod_eq n 2) at 2.
  rewrite Nat.add_comm, Nat.odd_add_mul_2.
  pose proof (Nat.mod_upper_bound n 2) as B.
  destruct (n mod 2) as [|[|k]]; [reflexivity|reflexivity|lia].
Qed.

Lemma quotes_iff_odd (payload : jsstring) :
  In SYNTAX_ERROR_QUOTES (validatePayload payload) <->
  Nat.odd (quotes payload) = true.
Proof.
  rewrite In_validatePayload, odd_mod2, quoteCount_quotes.
  destruct issues_distinct as (A & B & C). intuition congruence.
Qed.

Lemma spacing_iff_test (payload : jsstring) :
  In SYNTAX_WARNING_SPACE (validatePayload payload) <->
  test re_spacing payload = true.
Proof.
  rewrite In_validatePayload. destruct issues_distinct as (A & B & C).
  intuition congruence.
Qed.

(** The third check fires exactly on an occurrence of one of its four
    operators followed by a colon and a white-space unit. *)
Lemma test_re_spacing (payload : jsstring) :
  test re_spacing payload = true <->
  exists a op w b,
    In op spacing_operators /\ is_space w = true /\
    payload = a ++ op ++ [58%N] ++ [w] ++ b.
Proof.
  rewrite test_spec. unfold re_spacing. split.
  - intros (a & m & b & -> & H).
    apply Matches_Cat_inv in H as (op & m2 & -> & Hop & H2).
    apply Matches_Cat_inv in H2 as (colon & m3 & -> & Hc & H3).
    apply Matches_One in Hc as ->.
    apply Matches_Plus_Chars in H3 as (w & rest & -> & Hw).
    exists a, op, w, (rest ++ b). repeat split.
    + unfold spacing_operators. simpl.
      apply Matches_Alt_inv in Hop as [Hop|Hop];
        [apply Matches_Str in Hop; auto|].
      apply Matches_Alt_inv in Hop as [Hop|Hop];
        [apply Matches_Str in Hop; auto|].
      apply Matches_Alt_inv in Hop as [Hop|Hop];
        apply Matches_Str in Hop; auto.
    + exact Hw.
    + rewrite <- !app_assoc. reflexivity.
  - intros (a & op & w & b & Hop & Hw & ->).
    exists a, (op ++ [58%N] ++ [w]), b. split.
    + rewrite <- !app_assoc. reflexivity.
    + apply MCat.
      * unfold spacing_operators in Hop. simpl in Hop.
        destruct Hop as [<-|[<-|[<-|[<-|[]]]]].
        -- apply MAltL, Matches_Str. reflexivity.
        -- apply MAltR, MAltL, Matches_Str. reflexivity.
        -- apply MAltR, MAltR, MAltL, Matches_Str. reflexivity.
        -- apply MAltR, MAltR, MAltR, Matches_Str. reflexivity.
      * apply MCat; [apply Matches_One; reflexivity|].
        apply Matches_Plus_one, Hw.
Qed.

(** What the third check does cover: [ext], [site], [inurl] and
    [intitle], negated or not, anywhere in the query. *)
Lemma spacing_flagged (a op b : jsstring) (w : N) :
  In op spacing_operators -> is_space w = true ->
  In SYNTAX_WARNING_SPACE (validatePayload (a ++ op ++ [58%N] ++ [w] ++ b)).
Proof.
  intros Hop Hw. apply spacing_iff_test, test_re_spacing.
  exists a, op, w, b. auto.
Qed.

Example negated_site_flagged :
  In SYNTAX_WARNING_SPACE (validatePayload (lit "admin -site: example.com")).
Proof.
  apply (@spacing_flagged (lit "admin -") (lit "site") (lit "example.com")
           32%N); [right; left|]; reflexivity.
Qed.

Example validate_site_space :
  validatePayload (lit "site: example.com") = [SYNTAX_WARNING_SPACE].
Proof. vm_compute. reflexivity. Qed.

Example validate_site_ok : validatePayload (lit "site:example.com") = [].
Proof. vm_compute. reflexivity. Qed.

(** C1.  What the first check of the validator flags: the CRITICAL issue
    is returned exactly for the queries that hold a letter of the Russian
    alphabet, a code unit in U+0410..U+044F, or U+0401, or U+0451.  The
    check is meant for Cyrillic (its comment and its message say so), and
    the Cyrillic block is wider than this class. *)
Theorem critical_iff_russian_letter (payload : jsstring) :
  In CRITICAL_CYRILLIC (validatePayload payload) <->
  exists c, In c payload /\
    ((0x410 <= c <= 0x44F)%N \/ c = 0x401%N \/ c = 0x451%N).
Proof.
  rewrite critical_iff_test. unfold re_cyrillic. rewrite test_Chars.
  split; intros (c & Hin & Hc); exists c; (split; [exact Hin|]);
    apply cyrillic_class_spec; exact Hc.
Qed.

(** The half of C1 that holds for the whole Cyrillic block: a query
    with no code unit of the block gets no CRITICAL issue. *)
Lemma no_cyrillic_no_critical (payload : jsstring) :
  (forall c, In c payload -> cyrillic_block c = false) ->
  ~ In CRITICAL_CYRILLIC (validatePayload payload).
Proof.
  intros H Hin. apply critical_iff_test in Hin. unfold re_cyrillic in Hin.
  apply test_Chars in Hin as (c & Hc & Hcl).
  apply cyrillic_class_in_block in Hcl. rewrite (H c Hc) in Hcl.
  discriminate.
Qed.

(** C1 at its failing input: U+0457, the Ukrainian letter yi, lies in
    the Cyrillic block, and a query made of it gets no issue at all. *)
Lemma cyrillic_yi_not_flagged :
  (exists c, In c [0x457; 0x457]%N /\ cyrillic_block c = true) /\
  validatePayload [0x457; 0x457]%N = [] /\
  ~ In CRITICAL_CYRILLIC (validatePayload [0x457; 0x457]%N).
Proof.
  split; [|split].
  - exists 0x457%N. split; [left|]; reflexivity.
  - vm_compute. reflexivity.
  - vm_compute. tauto.
Qed.

(** Of the operators the component recognises, all but [filetype] are
    covered by the third check: each ends in one of its four words
    ([intext] ends in [ext], the negated forms in [site] and [inurl]). *)
Lemma highlighted_flagged_except_filetype (a op b : jsstring) (w : N) :
  In op highlighted_operators -> op <> lit "filetype" ->
  is_space w = true ->
  In SYNTAX_WARNING_SPACE (validatePayload (a ++ op ++ [58%N] ++ [w] ++ b)).
Proof.
  intros Hop Hne Hw.
  assert (E : exists pre op', op = pre ++ op' /\ In op' spacing_operators).
  { unfold highlighted_operators in Hop. simpl in Hop.
    destruct Hop as [<-|[<-|[<-|[<-|[<-|[<-|[<-|[<-|[]]]]]]]]].
    - exists [], (lit "site"). split; [reflexivity|right; left; reflexivity].
    - exists [], (lit "inurl").
      split; [reflexivity|do 2 right; left; reflexivity].
    - exists [], (lit "intitle").
      split; [reflexivity|do 3 right; left; reflexivity].
    - congruence.
    - exists [], (lit "ext"). split; [reflexivity|left; reflexivity].
    - exists (lit "int"), (lit "ext"). split; [reflexivity|left; reflexivity].
    - exists (lit "-"), (lit "site").
      split; [reflexivity|right; left; reflexivity].
    - exists (lit "-"), (lit "inurl").
      split; [reflexivity|do 2 right; left; reflexivity]. }
  destruct E as (pre & op' & -> & Hop').
  replace (a ++ (pre ++ op') ++ [58%N] ++ [w] ++ b)
    with ((a ++ pre) ++ op' ++ [58%N] ++ [w] ++ b)
    by (rewrite <- !app_assoc; reflexivity).
  apply spacing_flagged; assumption.
Qed.

(** C2 at its failing input: [filetype] is an operator the component
    recognises and composes, yet a space after its colon draws no
    warning, neither plain nor negated. *)
Theorem filetype_space_unflagged :
  In (lit "filetype") highlighted_operators /\
  is_space 32 = true /\
  validatePayload (lit "filetype: pdf") = [] /\
  validatePayload (lit "site:example.com -filetype: pdf") = [].
Proof.
  split; [|split; [|split]].
  - do 3 right. left. reflexivity.
  - reflexivity.
  - vm_compute. reflexivity.
  - vm_compute. reflexivity.
Qed.

(** C8.  The unbalanced-quotes issue is returned exactly for the
    queries with an odd number of double quotes, and withheld exactly
    for those with an even number, zero included. *)
Theorem quotes_issue_iff_odd (payload : jsstring) :
  (Nat.odd (quotes payload) = true <->
   In SYNTAX_ERROR_QUOTES (validatePayload payload)) /\
  (Nat.even (quotes payload) = true <->
   ~ In SYNTAX_ERROR_QUOTES (validatePayload payload)).
Proof.
  rewrite quotes_iff_odd, <- Nat.negb_even.
  destruct (Nat.even (quotes payload)); simpl; intuition congruence.
Qed.

End ValidatorFacts.

(** ** The history ledger *)

Module LedgerFacts.

Lemma firstn_cons_firstn (A : Type) (n : nat) (x : A) (l : list A) :
  firstn (S n) (x :: firstn (S n) l) = firstn (S n) (x :: l).
Proof.
  change (x :: firstn n (firstn (S n) l) = x :: firstn n l). f_equal.
  rewrite firstn_firstn. f_equal. lia.
Qed.

Lemma record_cons (e : HistoryItem) (h : list HistoryItem) :
  record e h = e :: firstn 9 h.
Proof. reflexivity. Qed.

Lemma record_length (e : HistoryItem) (h : list HistoryItem) :
  List.length (record e h) <= 10.
Proof. unfold record. apply firstn_le_length. Qed.

Lemma record_all_spec (es h : list HistoryItem) :
  record_all es (firstn 10 h) = firstn 10 (rev es ++ h).
Proof.
  unfold record_all. revert h. induction es as [|e es IH]; intros h.
  - reflexivity.
  - cbn [fold_left rev]. unfold record at 2.
    rewrite firstn_cons_firstn. rewrite (IH (e :: h)).
    rewrite <- app_assoc. reflexivity.
Qed.

(** C4.  Starting from the empty ledger, after any sequence of records
    the ledger is the sequence reversed (newest first) and cut to its
    first ten entries, so it never holds more than ten; one record
    leaves at most ten entries whatever the ledger was: it prepends
    the entry and keeps the first nine of the previous entries in
    their order; after eleven records the ledger holds the last ten,
    newest first. *)
Theorem ledger_newest_first_capacity_10 :
  (forall es, record_all es [] = firstn 10 (rev es)) /\
  (forall es, List.length (record_all es []) <= 10) /\
  (forall e h, List.length (record e h) <= 10) /\
  (forall e h, record e h = e :: firstn 9 h) /\
  (forall e1 e2 e3 e4 e5 e6 e7 e8 e9 e10 e11,
     record_all [e1; e2; e3; e4; e5; e6; e7; e8; e9; e10; e11] [] =
     [e11; e10; e9; e8; e7; e6; e5; e4; e3; e2]).
Proof.
  assert (A : forall es, record_all es [] = firstn 10 (rev es)).
  { intros es. change (@nil HistoryItem) with (firstn 10 (@nil HistoryItem)).
    rewrite record_all_spec, app_nil_r. reflexivity. }
  split; [exact A|]. split; [|split; [|split]].
  - intros es. rewrite A. apply firstn_le_length.
  - exact record_length.
  - reflexivity.
  - reflexivity.
Qed.

End LedgerFacts.

(** ** The generation controller and the refinement loop *)

Module ControllerFacts.
Import JSFacts.

Lemma blank_forall (s : jsstring) :
  blank s = true <-> forall c, In c s -> is_space c = true.
Proof. apply forallb_forall. Qed.

Lemma or_else_truthy (a b : jsstring) : truthy a = true -> or_else a b = a.
Proof. unfold or_else. intros ->. reflexivity. Qed.

Lemma blank_nil_truthy (s : jsstring) : blank s = false -> truthy s = true.
Proof. destruct s; [discriminate|reflexivity]. Qed.

Lemma conforms_has_dork (data : object) :
  conforms_to_schema data = true ->
  exists query, get (lit "dork") data = Some (JString query).
Proof.
  unfold conforms_to_schema. rewrite !andb_true_iff.
  intros [[[[[[Hd _] _] _] _] _] _].
  destruct (get (lit "dork") data) as [[| | |query| |]|];
    try discriminate Hd.
  exists query. reflexivity.
Qed.

Lemma uplink_error_detail (message : option jsstring) :
  uplink_error message = UPLINK_ERROR ++ error_detail message.
Proof.
  unfold uplink_error, error_detail.
  destruct message as [m|]; [destruct (truthy m)|]; rewrite ?app_nil_r;
    reflexivity.
Qed.

Section Runtime.

Variable API_KEY : jsstring.
Variable JSON_parse : parser.
Variable TypeError_message : json -> jsstring.

Lemma sync_blank (overrideInput : option jsstring) (st : State) :
  blank (inputToUse overrideInput st) = true ->
  generateWithAI_sync API_KEY overrideInput st = nothing.
Proof.
  intros H. unfold generateWithAI_sync.
  apply trim_nil_iff in H. rewrite H. reflexivity.
Qed.

Lemma sync_not_blank (overrideInput : option jsstring) (st : State) :
  blank (inputToUse overrideInput st) = false ->
  generateWithAI_sync API_KEY overrideInput st =
  if negb (truthy API_KEY) then
    {| updates := setError (Some ABORTED); deps_changed := false;
       calls := [] |}
  else
    {| updates := fun st' =>
         setAnalysis None
           (setSyntaxErrors [] (setError None (setIsLoading true st')));
       deps_changed :=
         match analysis st with Some _ => true | None => false end;
       calls := [generation_request (inputToUse overrideInput st)] |}.
Proof.
  intros H. unfold generateWithAI_sync.
  apply trim_truthy_iff in H. rewrite H. reflexivity.
Qed.

(** The state while the request is in flight. *)
Lemma pending_fields (overrideInput : option jsstring) (st : State) :
  blank (inputToUse overrideInput st) = false -> truthy API_KEY = true ->
  let pending := commit (generateWithAI_sync API_KEY overrideInput st) st in
  naturalInput pending = naturalInput st /\
  analysis pending = None /\
  history pending = history st /\
  isLoading pending = true /\
  isOptimizing pending = isOptimizing st /\
  error pending = None /\
  syntaxErrors pending = [] /\
  showManual pending = showManual st /\
  copyFeedback pending = copyFeedback st /\
  manualParams pending = manualParams st.
Proof.
  intros Hb Hk. cbv zeta. rewrite (sync_not_blank _ _ Hb), Hk.
  unfold commit, syncManualEffect. cbn.
  destruct (analysis st); cbn;
    [destruct (manual_parts (manualParams st)); cbn|]; repeat split.
Qed.

(** Manual mode does not look at the error cell. *)
Lemma manual_change_ignores_error (e : option jsstring) (name : ManualField)
  (value : jsstring) (st : State) :
  commit (handleManualChange name value (setError e st)) (setError e st) =
  setError e (commit (handleManualChange name value st) st).
Proof.
  unfold commit, handleManualChange, syncManualEffect. cbn.
  destruct (manual_parts (withField (manualParams st) name value));
    reflexivity.
Qed.

(** C6.  When the objective the generation would use is empty or all
    white space, invoking generation makes no request to the AI boundary
    and returns the very state it was given. *)
Theorem blank_objective_is_noop (overrideInput : option jsstring) (now : N)
  (answer : Request -> Outcome) (st : State) :
  blank (inputToUse overrideInput st) = true ->
  generateWithAI API_KEY JSON_parse TypeError_message overrideInput now answer st
  = (st, []).
Proof.
  intros H. unfold generateWithAI. rewrite (sync_blank _ _ H). reflexivity.
Qed.

(** C7, as amended.  With no credential configured and an objective that
    is not blank (it holds a unit that is not white space), invoking
    generation makes no request and only sets the error cell to the
    ABORTED message; manual mode works on that state as it did before. *)
Theorem missing_credential_aborts (overrideInput : option jsstring) (now : N)
  (answer : Request -> Outcome) (st : State) :
  truthy API_KEY = false ->
  blank (inputToUse overrideInput st) = false ->
  generateWithAI API_KEY JSON_parse TypeError_message overrideInput now answer st
  = (setError (Some ABORTED) st, []) /\
  forall name value,
    commit (handleManualChange name value (setError (Some ABORTED) st))
      (setError (Some ABORTED) st) =
    setError (Some ABORTED) (commit (handleManualChange name value st) st).
Proof.
  intros Hk Hb. split.
  - unfold generateWithAI. rewrite (sync_not_blank _ _ Hb), Hk. reflexivity.
  - intros name value. apply manual_change_ignores_error.
Qed.

(** A non-empty text that does not yield an object with a string [dork]
    takes the continuation to the [catch] block. *)
Lemma response_rejected (objective : jsstring) (now : N) (text : jsstring) :
  truthy text = true ->
  (forall data, JSON_parse text = inr data -> has_string_dork data = false) ->
  exists m,
    generateWithAI_resume JSON_parse TypeError_message objective now
      (Resolved (Some text))
    = failed (Some m).
Proof.
  intros Ht Hbad. unfold generateWithAI_resume. rewrite Ht.
  destruct (JSON_parse text) as [message|data] eqn:Ep.
  - exists message. reflexivity.
  - specialize (Hbad data eq_refl).
    exists (TypeError_message data). unfold on_parsed.
    destruct data as [| | | | |o]; try reflexivity.
    unfold has_string_dork in Hbad.
    destruct (get (lit "dork") o) as [[| | |q| |]|];
      try discriminate Hbad; reflexivity.
Qed.

(** C5.  When the awaited call resolves with a text that parses to an
    object conforming to the schema, the controller turns the state
    the session is in at that moment into this one: the issues of the
    validator on the response's query, the query and the response
    stored, one entry with the objective and the response prepended to
    the ledger (cut to ten), every manual field emptied and the busy
    flag cleared; every other cell is as it was. *)
Theorem success_side_effects (objective : jsstring) (now : N)
  (text : jsstring) (data : object) (current : State) :
  truthy text = true ->
  JSON_parse text = inr (JObject data) ->
  conforms_to_schema data = true ->
  exists query,
    get (lit "dork") data = Some (JString query) /\
    commit
      (generateWithAI_resume JSON_parse TypeError_message objective now
         (Resolved (Some text)))
      current =
    {| naturalInput := naturalInput current;
       dork := query;
       analysis := Some data;
       history :=
         {| timestamp := now; input := objective; response := data |}
         :: firstn 9 (history current);
       isLoading := false;
       isOptimizing := isOptimizing current;
       error := error current;
       syntaxErrors := validatePayload query;
       showManual := showManual current;
       copyFeedback := copyFeedback current;
       manualParams := noManualParams |}.
Proof.
  intros Ht Hp Hc.
  destruct (@conforms_has_dork data Hc) as (query & Eq).
  exists query. split; [exact Eq|].
  unfold generateWithAI_resume. rewrite Ht, Hp.
  unfold on_parsed. rewrite Eq. reflexivity.
Qed.

(** The same for a whole generation with nothing happening in between:
    one request goes out, and the error cell ends empty. *)
Lemma generation_success_cycle (overrideInput : option jsstring) (now : N)
  (answer : Request -> Outcome) (st : State) (text : jsstring)
  (data : object) :
  truthy API_KEY = true ->
  blank (inputToUse overrideInput st) = false ->
  answer (generation_request (inputToUse overrideInput st))
  = Resolved (Some text) ->
  truthy text = true ->
  JSON_parse text = inr (JObject data) ->
  conforms_to_schema data = true ->
  exists query,
    get (lit "dork") data = Some (JString query) /\
    generateWithAI API_KEY JSON_parse TypeError_message overrideInput now
      answer st =
    ({| naturalInput := naturalInput st;
        dork := query;
        analysis := Some data;
        history :=
          {| timestamp := now; input := inputToUse overrideInput st;
             response := data |} :: firstn 9 (history st);
        isLoading := false;
        isOptimizing := isOptimizing st;
        error := None;
        syntaxErrors := validatePayload query;
        showManual := showManual st;
        copyFeedback := copyFeedback st;
        manualParams := noManualParams |},
     [generation_request (inputToUse overrideInput st)]).
Proof.
  intros Hk Hb Ha Ht Hp Hc.
  destruct (@conforms_has_dork data Hc) as (query & Eq).
  exists query. split; [exact Eq|].
  pose proof (@pending_fields overrideInput st Hb Hk) as P.
  cbv zeta in P.
  destruct P as (P1 & P2 & P3 & P4 & P5 & P6 & P7 & P8 & P9 & P10).
  unfold generateWithAI. cbv zeta.
  remember (commit (generateWithAI_sync API_KEY overrideInput st) st)
    as pending eqn:Epending in *.
  rewrite (sync_not_blank _ _ Hb), Hk. cbn [negb calls]. rewrite Ha.
  unfold generateWithAI_resume. rewrite Ht, Hp.
  unfold on_parsed. rewrite Eq. unfold succeeded, commit.
  cbn [updates deps_changed].
  unfold syncManualEffect, setIsLoading, setManualParams, setHistory,
    setAnalysis, setDork, setSyntaxErrors, record.
  cbn -[firstn validatePayload]. rewrite P1, P3, P5, P6, P8, P9. reflexivity.
Qed.

(** C3, as amended.  What the continuation does with the text the
    awaited call resolves with, on the state the session is in at that
    moment.  A non-empty text that [JSON.parse] rejects, or that parses
    to anything but an object with a string [dork], puts in the error
    cell the UPLINK ERROR message followed by the cause in brackets (the
    message of the parser, or of the TypeError the validator throws; an
    empty message adds nothing), clears the busy flag and leaves every
    other cell as it was: no result is stored and the ledger gets no
    entry.  A text that parses to an object with a string [dork] is
    accepted whatever else the object holds or lacks.  An empty or
    absent text only clears the busy flag. *)
Theorem malformed_response_fails (objective : jsstring) (now : N)
  (current : State) :
  (forall text cause,
     truthy text = true ->
     (JSON_parse text = inl cause \/
      exists data,
        JSON_parse text = inr data /\ has_string_dork data = false /\
        cause = TypeError_message data) ->
     commit
       (generateWithAI_resume JSON_parse TypeError_message objective now
          (Resolved (Some text)))
       current =
     {| naturalInput := naturalInput current;
        dork := dork current;
        analysis := analysis current;
        history := history current;
        isLoading := false;
        isOptimizing := isOptimizing current;
        error :=
          Some (UPLINK_ERROR ++
                match cause with
                | [] => []
                | _ :: _ => lit " [" ++ cause ++ lit "]"
                end);
        syntaxErrors := syntaxErrors current;
        showManual := showManual current;
        copyFeedback := copyFeedback current;
        manualParams := manualParams current |}) /\
  (forall text data,
     truthy text = true ->
     JSON_parse text = inr data -> has_string_dork data = true ->
     exists o query,
       data = JObject o /\
       get (lit "dork") o = Some (JString query) /\
       commit
         (generateWithAI_resume JSON_parse TypeError_message objective now
            (Resolved (Some text)))
         current =
       {| naturalInput := naturalInput current;
          dork := query;
          analysis := Some o;
          history :=
            {| timestamp := now; input := objective; response := o |}
            :: firstn 9 (history current);
          isLoading := false;
          isOptimizing := isOptimizing current;
          error := error current;
          syntaxErrors := validatePayload query;
          showManual := showManual current;
          copyFeedback := copyFeedback current;
          manualParams := noManualParams |}) /\
  (forall text,
     text = None \/ text = Some [] ->
     commit
       (generateWithAI_resume JSON_parse TypeError_message objective now
          (Resolved text))
       current =
     {| naturalInput := naturalInput current;
        dork := dork current;
        analysis := analysis current;
        history := history current;
        isLoading := false;
        isOptimizing := isOptimizing current;
        error := error current;
        syntaxErrors := syntaxErrors current;
        showManual := showManual current;
        copyFeedback := copyFeedback current;
        manualParams := manualParams current |}).
Proof.
  split; [|split].
  - intros text cause Ht Hbad.
    assert (E : generateWithAI_resume JSON_parse TypeError_message objective
                  now (Resolved (Some text)) = failed (Some cause)).
    { unfold generateWithAI_resume. rewrite Ht.
      destruct Hbad as [Hp|(data & Hp & Hd & ->)]; rewrite Hp;
        [reflexivity|].
      unfold on_parsed. destruct data as [| | | | |o]; try reflexivity.
      unfold has_string_dork in Hd.
      destruct (get (lit "dork") o) as [[| | |q| |]|];
        try discriminate Hd; reflexivity. }
    rewrite E. unfold failed, commit. cbn [updates deps_changed].
    unfold uplink_error. destruct cause as [|c cause]; cbn [truthy];
      rewrite ?app_nil_r; reflexivity.
  - intros text data Ht Hp Hd.
    destruct data as [| | | | |o]; try discriminate Hd.
    unfold has_string_dork in Hd.
    destruct (get (lit "dork") o) as [[| | |query| |]|] eqn:Eq;
      try discriminate Hd.
    exists o, query. split; [reflexivity|]. split; [exact Eq|].
    unfold generateWithAI_resume. rewrite Ht, Hp.
    unfold on_parsed. rewrite Eq. reflexivity.
  - intros text [ -> | -> ]; reflexivity.
Qed.

(** The same for a whole generation with nothing happening in between:
    one request went out, and no result is on display. *)
Lemma generation_failure_cycle (overrideInput : option jsstring) (now : N)
  (answer : Request -> Outcome) (st : State) (text : jsstring) :
  truthy API_KEY = true ->
  blank (inputToUse overrideInput st) = false ->
  answer (generation_request (inputToUse overrideInput st))
  = Resolved (Some text) ->
  truthy text = true ->
  (forall data, JSON_parse text = inr data -> has_string_dork data = false) ->
  exists detail,
    generateWithAI API_KEY JSON_parse TypeError_message overrideInput now
      answer st =
    ({| naturalInput := naturalInput st;
        dork :=
          dork (commit (generateWithAI_sync API_KEY overrideInput st) st);
        analysis := None;
        history := history st;
        isLoading := false;
        isOptimizing := isOptimizing st;
        error := Some (UPLINK_ERROR ++ detail);
        syntaxErrors := [];
        showManual := showManual st;
        copyFeedback := copyFeedback st;
        manualParams := manualParams st |},
     [generation_request (inputToUse overrideInput st)]).
Proof.
  intros Hk Hb Ha Ht Hbad.
  pose proof (@pending_fields overrideInput st Hb Hk) as P.
  cbv zeta in P.
  destruct P as (P1 & P2 & P3 & P4 & P5 & P6 & P7 & P8 & P9 & P10).
  destruct (@response_rejected (inputToUse overrideInput st) now text Ht Hbad)
    as (m & E).
  exists (error_detail (Some m)).
  unfold generateWithAI. cbv zeta.
  remember (commit (generateWithAI_sync API_KEY overrideInput st) st)
    as pending eqn:Epending in *.
  rewrite (sync_not_blank _ _ Hb), Hk. cbn [negb calls]. rewrite Ha, E.
  unfold failed, commit. cbn [updates deps_changed].
  rewrite uplink_error_detail. unfold setIsLoading, setError.
  cbn -[error_detail UPLINK_ERROR app].
  rewrite P1, P2, P3, P5, P7, P8, P9, P10. reflexivity.
Qed.

Lemma prompt_injective (x y : jsstring) : prompt x = prompt y -> x = y.
Proof.
  unfold prompt. intros H. apply app_inv_head in H.
  apply app_inv_tail in H. exact H.
Qed.

(** C9, as amended.  With a result on display whose [refinedObjective]
    is a non-empty string X, the refinement handler always sets the
    objective to X.  When X is not blank and a credential is configured,
    it makes exactly one request, the generation request built from X,
    and the session is left waiting for it with the previous result
    cleared.  When X is blank (white space only), no request is made and
    nothing but the objective changes, credential or not. *)
Theorem refinement_starts_generation (st : State) (a : object)
  (X : jsstring) :
  analysis st = Some a ->
  get (lit "refinedObjective") a = Some (JString X) ->
  X <> [] ->
  exists r,
    handleApplyImprovement API_KEY st = Some r /\
    inputToUse (Some X) st = X /\
    naturalInput (commit r st) = X /\
    (truthy API_KEY = true -> blank X = false ->
     calls r = [generation_request X] /\
     contents (generation_request X) = prompt X /\
     isLoading (commit r st) = true /\
     error (commit r st) = None /\
     analysis (commit r st) = None) /\
    (blank X = true ->
     calls r = [] /\ commit r st = setNaturalInput X st).
Proof.
  intros Ha Hg Hne.
  assert (Ht : truthy X = true) by (destruct X; [congruence|reflexivity]).
  assert (Hi : inputToUse (Some X) st = X)
    by (unfold inputToUse; apply or_else_truthy, Ht).
  unfold handleApplyImprovement. rewrite Ha, Hg, Ht.
  destruct (blank X) eqn:Hb.
  - assert (Hb' : blank (inputToUse (Some X) st) = true)
      by (rewrite Hi; exact Hb).
    rewrite (sync_blank _ _ Hb').
    eexists. split; [reflexivity|]. split; [exact Hi|].
    split; [reflexivity|]. split; [discriminate|].
    intros _. split; reflexivity.
  - assert (Hb' : blank (inputToUse (Some X) st) = false)
      by (rewrite Hi; exact Hb).
    rewrite (sync_not_blank _ _ Hb'), Hi.
    destruct (truthy API_KEY) eqn:Hk; cbn [negb].
    + eexists. split; [reflexivity|]. split; [reflexivity|].
      cbn [calls]. unfold commit. cbn [updates deps_changed]. rewrite Ha.
      unfold syncManualEffect. cbn.
      split; [destruct (manual_parts (manualParams st)); reflexivity|].
      split; [|discriminate].
      intros _ _.
      destruct (manual_parts (manualParams st)); cbn; repeat split.
    + eexists. split; [reflexivity|]. split; [reflexivity|].
      split; [reflexivity|]. split; discriminate.
Qed.

End Runtime.

(** C10.  In manual mode with every manual field empty the effect leaves
    the state, and so the query, as it was; in particular, typing a
    value into one field of an empty form and then clearing that field
    leaves on display the query composed from the value. *)
Theorem manual_compose_keeps_query :
  (forall st,
     analysis st = None -> manualParams st = noManualParams ->
     syncManualEffect st = st) /\
  (forall st name value,
     manualParams st = noManualParams -> truthy value = true ->
     let st1 := commit (handleManualChange name value st) st in
     let st2 := commit (handleManualChange name [] st1) st1 in
     analysis st2 = None /\
     manualParams st2 = noManualParams /\
     dork st1 = join (lit " ") (manual_parts (withField noManualParams name value)) /\
     dork st1 <> [] /\
     dork st2 = dork st1).
Proof.
  split.
  - intros st Ha Hm. unfold syncManualEffect. rewrite Ha, Hm. reflexivity.
  - intros st name value Hm Hv. cbv zeta.
    unfold commit, handleManualChange, syncManualEffect.
    cbn [updates deps_changed]. cbn. rewrite Hm.
    destruct value as [|v value]; [discriminate|].
    destruct name; cbn; repeat split; discriminate.
Qed.

Lemma manual_compose_keeps_query_witness :
  syncManualEffect initialState = initialState /\
  dork (commit (handleManualChange FSite []
          (commit (handleManualChange FSite (lit "example.com") initialState)
             initialState))
         (commit (handleManualChange FSite (lit "example.com") initialState)
            initialState))
  = lit "site:example.com".
Proof.
  split.
  - apply (proj1 manual_compose_keeps_query); reflexivity.
  - pose proof (proj2 manual_compose_keeps_query initialState FSite
                  (lit "example.com") eq_refl eq_refl) as H.
    cbv zeta in H. destruct H as (_ & _ & H1 & _ & H2).
    rewrite H2, H1. reflexivity.
Defined.

Lemma blank_objective_is_noop_witness :
  blank (inputToUse None Sample.space_typed) = true /\
  generateWithAI Sample.key Sample.parse Sample.type_error None 7
    (Sample.answering Sample.edu_text) Sample.space_typed
  = (Sample.space_typed, []).
Proof.
  split; [reflexivity|].
  apply blank_objective_is_noop. reflexivity.
Defined.

Lemma missing_credential_aborts_witness :
  truthy [] = false /\
  blank (inputToUse None Sample.unconfigured) = false /\
  error Sample.unconfigured = Some SYSTEM_ALERT /\
  generateWithAI [] Sample.parse Sample.type_error None 7
    (Sample.answering Sample.edu_text) Sample.unconfigured
  = (setError (Some ABORTED) Sample.unconfigured, []).
Proof.
  split; [reflexivity|]. split; [reflexivity|]. split; [reflexivity|].
  apply (@missing_credential_aborts [] Sample.parse Sample.type_error None 7
           (Sample.answering Sample.edu_text) Sample.unconfigured);
    reflexivity.
Defined.

(** C7 as stated fails: one space is a non-empty objective, and without
    a credential generation returns before the credential is looked at:
    the state is returned as it was, and the error cell does not hold the
    ABORTED message (it still holds the alert set when the component
    mounted). *)
Lemma space_objective_without_credential :
  naturalInput Sample.unconfigured_space = lit " " /\
  naturalInput Sample.unconfigured_space <> [] /\
  truthy [] = false /\
  generateWithAI [] Sample.parse Sample.type_error None 7
    (Sample.answering Sample.edu_text) Sample.unconfigured_space
  = (Sample.unconfigured_space, []) /\
  error Sample.unconfigured_space = Some SYSTEM_ALERT /\
  error Sample.unconfigured_space <> Some ABORTED.
Proof.
  split; [reflexivity|]. split; [discriminate|]. split; [reflexivity|].
  split; [reflexivity|]. split; [reflexivity|]. discriminate.
Qed.

Lemma success_side_effects_witness :
  conforms_to_schema Sample.edu = true /\
  Sample.parse Sample.edu_text = inr (JObject Sample.edu) /\
  exists query,
    get (lit "dork") Sample.edu = Some (JString query) /\
    commit
      (generateWithAI_resume Sample.parse Sample.type_error Sample.objective 7
         (Resolved (Some Sample.edu_text)))
      Sample.typed =
    {| naturalInput := Sample.objective;
       dork := query;
       analysis := Some Sample.edu;
       history :=
         {| timestamp := 7; input := Sample.objective;
            response := Sample.edu |} :: firstn 9 [];
       isLoading := false;
       isOptimizing := false;
       error := None;
       syntaxErrors := validatePayload query;
       showManual := false;
       copyFeedback := false;
       manualParams := noManualParams |}.
Proof.
  split; [reflexivity|]. split; [vm_compute; reflexivity|].
  apply (@success_side_effects Sample.parse Sample.type_error
           Sample.objective 7 Sample.edu_text Sample.edu Sample.typed);
    reflexivity.
Defined.

(** The scenario of the specification: the query is stored, no issue is
    raised and one entry is recorded. *)
Example edu_scenario :
  dork (fst (Sample.run Sample.edu_text)) = lit "site:.edu filetype:env" /\
  syntaxErrors (fst (Sample.run Sample.edu_text)) = [] /\
  List.length (history (fst (Sample.run Sample.edu_text))) = 1 /\
  get (lit "riskLevel") Sample.edu = Some (JString (lit "HIGH")).
Proof. vm_compute. repeat split. Qed.

Lemma malformed_response_fails_witness :
  Sample.parse (lit "not json") = inl (lit "Unexpected token in JSON") /\
  commit
    (generateWithAI_resume Sample.parse Sample.type_error Sample.objective 7
       (Resolved (Some (lit "not json"))))
    Sample.typed =
  {| naturalInput := Sample.objective;
     dork := [];
     analysis := None;
     history := [];
     isLoading := false;
     isOptimizing := false;
     error := Some (UPLINK_ERROR ++ lit " [Unexpected token in JSON]");
     syntaxErrors := [];
     showManual := false;
     copyFeedback := false;
     manualParams := noManualParams |}.
Proof.
  split; [vm_compute; reflexivity|].
  apply (proj1 (@malformed_response_fails Sample.parse Sample.type_error
                  Sample.objective 7 Sample.typed)
           (lit "not json") (lit "Unexpected token in JSON"));
    [reflexivity|].
  left. vm_compute. reflexivity.
Defined.

(** A response whose [dork] is a number fails like a malformed one. *)
Example numeric_dork_fails :
  error (fst (Sample.run Sample.numeric_dork_text)) =
    Some (UPLINK_ERROR ++ lit " [payload.match is not a function]") /\
  analysis (fst (Sample.run Sample.numeric_dork_text)) = None /\
  history (fst (Sample.run Sample.numeric_dork_text)) = [].
Proof. vm_compute. repeat split. Qed.

(** An empty response text is neither an error nor a result. *)
Example empty_text_is_silent :
  error (fst (Sample.run [])) = None /\
  analysis (fst (Sample.run [])) = None /\
  history (fst (Sample.run [])) = [] /\
  isLoading (fst (Sample.run [])) = false.
Proof. vm_compute. repeat split. Qed.

(** C3 as stated fails: a response that parses to an object with the
    query alone omits six required properties, and the controller stores
    it as a result and records it, with no error. *)
Lemma dork_only_response_accepted :
  Sample.parse Sample.dork_only_text = inr (JObject Sample.dork_only) /\
  In (lit "explanation") required_fields /\
  get (lit "explanation") Sample.dork_only = None /\
  error (fst (Sample.run Sample.dork_only_text)) = None /\
  analysis (fst (Sample.run Sample.dork_only_text)) = Some Sample.dork_only /\
  dork (fst (Sample.run Sample.dork_only_text)) = lit "site:example.com" /\
  history (fst (Sample.run Sample.dork_only_text)) =
    [ {| timestamp := 7; input := Sample.objective;
         response := Sample.dork_only |} ].
Proof.
  split; [vm_compute; reflexivity|].
  split; [right; left; reflexivity|].
  vm_compute. repeat split.
Qed.

Lemma refinement_starts_generation_witness :
  analysis (Sample.after Sample.edu_text) = Some Sample.edu /\
  blank (lit "find exposed .env backups on edu domains") = false /\
  exists r,
    handleApplyImprovement Sample.key (Sample.after Sample.edu_text)
    = Some r /\
    calls r =
      [generation_request (lit "find exposed .env backups on edu domains")] /\
    naturalInput (commit r (Sample.after Sample.edu_text)) =
      lit "find exposed .env backups on edu domains" /\
    isLoading (commit r (Sample.after Sample.edu_text)) = true.
Proof.
  split; [reflexivity|]. split; [reflexivity|].
  destruct (@refinement_starts_generation Sample.key
              (Sample.after Sample.edu_text) Sample.edu
              (lit "find exposed .env backups on edu domains")
              eq_refl eq_refl)
    as (r & H1 & _ & H2 & H3 & _); [discriminate|].
  destruct (H3 eq_refl eq_refl) as (H4 & _ & H5 & _).
  exists r. auto.
Defined.

(** C9 as stated fails: after a generation whose response conforms to
    the schema and proposes one space as the refined objective (a
    non-empty string), the handler stores the space as the objective,
    and the generation it calls returns at once: no request is made, the
    session is not waiting, and the result stays on display. *)
Lemma blank_refinement_starts_nothing :
  conforms_to_schema Sample.blank_refinement = true /\
  analysis (Sample.after Sample.blank_refinement_text)
  = Some Sample.blank_refinement /\
  get (lit "refinedObjective") Sample.blank_refinement
  = Some (JString (lit " ")) /\
  lit " " <> [] /\
  exists r,
    handleApplyImprovement Sample.key
      (Sample.after Sample.blank_refinement_text)
    = Some r /\
    calls r = [] /\
    naturalInput (commit r (Sample.after Sample.blank_refinement_text))
    = lit " " /\
    isLoading (commit r (Sample.after Sample.blank_refinement_text)) = false /\
    analysis (commit r (Sample.after Sample.blank_refinement_text))
    = Some Sample.blank_refinement.
Proof.
  split; [reflexivity|]. split; [vm_compute; reflexivity|].
  split; [reflexivity|]. split; [discriminate|].
  eexists. split; [vm_compute; reflexivity|]. vm_compute. repeat split.
Qed.

End ControllerFacts.

(** ** More on the payload validator *)

Module ValidatorMore.
Import RegexFacts ValidatorFacts.

Lemma validatePayload_nil_iff (payload : jsstring) :
  validatePayload payload = [] <->
  test re_cyrillic payload = false /\
  Nat.odd (quotes payload) = false /\
  test re_spacing payload = false.
Proof.
  unfold validatePayload. cbv zeta.
  rewrite odd_mod2, quoteCount_quotes. unfold push_if.
  destruct (test re_cyrillic payload), (Nat.odd (quotes payload)),
    (test re_spacing payload); cbn; split;
    try discriminate; try tauto; intros (A & B & C); discriminate.
Qed.

(** X6.  The validator returns no issue exactly for the queries that
    hold no letter of the Russian alphabet, an even number of double
    quotes, and no occurrence of [ext], [site], [inurl] or [intitle]
    followed by a colon and a white-space unit. *)
Theorem validatePayload_clean_iff (payload : jsstring) :
  validatePayload payload = [] <->
  (forall c, In c payload ->
     ~ ((0x410 <= c <= 0x44F)%N \/ c = 0x401%N \/ c = 0x451%N)) /\
  Nat.even (quotes payload) = true /\
  ~ (exists a op w b,
       In op spacing_operators /\ is_space w = true /\
       payload = a ++ op ++ [58%N] ++ [w] ++ b).
Proof.
  rewrite validatePayload_nil_iff.
  rewrite <- Nat.negb_even, negb_false_iff.
  rewrite <- !not_true_iff_false.
  rewrite test_re_spacing. unfold re_cyrillic. rewrite test_Chars.
  split; intros (A & B & C); (split; [|split; [exact B|exact C]]).
  - intros c Hc Hr. apply A. exists c. split; [exact Hc|].
    apply cyrillic_class_spec, Hr.
  - intros (c & Hc & Hr). apply (A c Hc). apply cyrillic_class_spec, Hr.
Qed.

(** X7.  The spacing warning is returned exactly when the query holds,
    anywhere, one of the words [ext], [site], [inurl], [intitle]
    followed by a colon and a white-space unit; the word need not stand
    alone, so [website: x] is flagged like [site: x]. *)
Theorem spacing_warning_iff (payload : jsstring) :
  In SYNTAX_WARNING_SPACE (validatePayload payload) <->
  exists a op w b,
    In op spacing_operators /\ is_space w = true /\
    payload = a ++ op ++ [58%N] ++ [w] ++ b.
Proof. rewrite spacing_iff_test. apply test_re_spacing. Qed.

Example website_flagged :
  validatePayload (lit "website: example.com") = [SYNTAX_WARNING_SPACE].
Proof. vm_compute. reflexivity. Qed.

End ValidatorMore.

(** ** The launch link *)

Module UriFacts.

Lemma hex_digit_unreserved (d : N) :
  (d < 16)%N -> unreserved (hex_digit d) = true.
Proof.
  intros H. unfold hex_digit.
  assert (C : (d = 0 \/ d = 1 \/ d = 2 \/ d = 3 \/ d = 4 \/ d = 5 \/ d = 6 \/
               d = 7 \/ d = 8 \/ d = 9 \/ d = 10 \/ d = 11 \/ d = 12 \/
               d = 13 \/ d = 14 \/ d = 15)%N) by lia.
  repeat (destruct C as [->|C]; [reflexivity|]). subst. reflexivity.
Qed.

Lemma percent_link_units (octet : N) : forallb link_unit (percent octet) = true.
Proof.
  unfold percent. cbn [forallb]. unfold link_unit at 2 3.
  rewrite !hex_digit_unreserved by (apply N.mod_lt; discriminate).
  reflexivity.
Qed.

Lemma escape_link_units (cp : N) : forallb link_unit (escape cp) = true.
Proof.
  unfold escape. induction (utf8 cp) as [|o os IH]; [reflexivity|].
  cbn [flat_map]. rewrite forallb_app, percent_link_units, IH. reflexivity.
Qed.

(** Induction two units at a time, as the encoder reads a string. *)
Lemma units_ind2 (P : jsstring -> Prop) :
  P [] ->
  (forall c, P [c]) ->
  (forall c t s, P s -> P (t :: s) -> P (c :: t :: s)) ->
  forall s, P s.
Proof.
  intros H0 H1 H2 s.
  assert (A : P s /\ forall c, P (c :: s)).
  { induction s as [|t s [IH1 IH2]].
    - split; [exact H0|exact H1].
    - split; [apply IH2|]. intros c. apply H2; [exact IH1|apply IH2]. }
  apply A.
Qed.

Lemma unreserved_not_surrogate (c : N) :
  unreserved c = true -> is_lead c = false /\ is_trail c = false.
Proof.
  unfold unreserved, is_lead, is_trail, in_range. cbn [existsb].
  rewrite !orb_true_iff, !andb_true_iff, !N.leb_le, !N.eqb_eq.
  intros H. split; apply andb_false_iff;
    rewrite !N.leb_gt; lia.
Qed.

Lemma lead_not_trail (c : N) : is_lead c = true -> is_trail c = false.
Proof.
  unfold is_lead, is_trail, in_range.
  rewrite !andb_true_iff, !N.leb_le. intros H.
  apply andb_false_iff. rewrite !N.leb_gt. lia.
Qed.

Ltac enc_none := cbn [option_map]; intros; discriminate.

Lemma encode_cons (c : N) (s' : jsstring) :
  encodeURIComponent (c :: s') =
  if unreserved c then option_map (cons c) (encodeURIComponent s')
  else if is_lead c then
    match s' with
    | t :: s'' =>
        if is_trail t
        then option_map (app (escape (pair_code_point c t)))
               (encodeURIComponent s'')
        else None
    | [] => None
    end
  else if is_trail c then None
  else option_map (app (escape c)) (encodeURIComponent s').
Proof. reflexivity. Qed.

Lemma encode_link_units (s r : jsstring) :
  encodeURIComponent s = Some r -> forallb link_unit r = true.
Proof.
  revert r. induction s as [|c|c t s IHs IHts] using units_ind2; intros r.
  - intros [= <-]. reflexivity.
  - cbn. destruct (unreserved c) eqn:Eu.
    + intros [= <-]. cbn. unfold link_unit. rewrite Eu. reflexivity.
    + destruct (is_lead c); [enc_none|].
      destruct (is_trail c); [enc_none|].
      intros [= <-]. rewrite app_nil_r. apply escape_link_units.
  - rewrite encode_cons. destruct (unreserved c) eqn:Eu.
    + destruct (encodeURIComponent (t :: s)) as [r'|] eqn:E; [|enc_none].
      intros [= <-]. cbn [forallb]. unfold link_unit at 1.
      rewrite Eu, (IHts r' eq_refl). reflexivity.
    + destruct (is_lead c).
      * destruct (is_trail t); [|enc_none].
        destruct (encodeURIComponent s) as [r'|]; [|enc_none].
        intros [= <-]. rewrite forallb_app, escape_link_units.
        apply (IHs r' eq_refl).
      * destruct (is_trail c); [enc_none|].
        destruct (encodeURIComponent (t :: s)) as [r'|] eqn:E; [|enc_none].
        intros [= <-]. rewrite forallb_app, escape_link_units.
        apply (IHts r' eq_refl).
Qed.

(** X1.  Whatever the query, the part of the launch link after [?q=]
    holds only letters, digits, the marks [- _ . ! ~ * ' ( )] and
    percent signs: no space, quote, [#], [&], [+], [/], [=] or [?] of
    the query reaches the link unescaped. *)
Theorem googleLink_query_is_escaped (dork link : jsstring) :
  googleLink dork = Some link ->
  exists q,
    link = SEARCH_URL ++ q /\
    (forall c, In c q -> unreserved c = true \/ c = 37%N) /\
    (forall c, In c (lit " #&+/=?") \/ c = dquote -> ~ In c q).
Proof.
  unfold googleLink. destruct (encodeURIComponent dork) as [q|] eqn:E;
    [|discriminate].
  intros [= <-]. exists q. split; [reflexivity|].
  pose proof (encode_link_units dork E) as H. rewrite forallb_forall in H.
  assert (A : forall c, In c q -> unreserved c = true \/ c = 37%N).
  { intros c Hc. specialize (H c Hc). unfold link_unit in H.
    apply orb_true_iff in H as [H|H]; [left; exact H|right].
    apply N.eqb_eq, H. }
  split; [exact A|].
  intros c Hbad Hc. destruct (A c Hc) as [ Hu | -> ].
  - destruct Hbad as [ Hbad | -> ]; [|discriminate Hu].
    cbn in Hbad.
    repeat (destruct Hbad as [ <- | Hbad ]; [discriminate Hu|]). exact Hbad.
  - destruct Hbad as [Hbad|Hq]; [|discriminate Hq].
    cbn in Hbad.
    repeat (destruct Hbad as [Hbad|Hbad]; [discriminate Hbad|]). exact Hbad.
Qed.

Lemma googleLink_query_is_escaped_witness :
  exists q,
    lit "https://www.google.com/search?q=site%3A.edu%20filetype%3Aenv"
    = SEARCH_URL ++ q /\
    (forall c, In c q -> unreserved c = true \/ c = 37%N) /\
    (forall c, In c (lit " #&+/=?") \/ c = dquote -> ~ In c q).
Proof.
  apply (@googleLink_query_is_escaped (lit "site:.edu filetype:env")).
  vm_compute. reflexivity.
Defined.

Lemma encode_defined_iff (s : jsstring) :
  (exists r, encodeURIComponent s = Some r) <-> WellPaired s.
Proof.
  induction s as [|c|c t s IHs IHts] using units_ind2.
  - split; [constructor|]. intros _. exists []. reflexivity.
  - cbn. destruct (unreserved c) eqn:Eu.
    + destruct (unreserved_not_surrogate c Eu) as [A B].
      split; [intros _; apply WP_unit; [exact A|exact B|constructor]|].
      intros _. eexists. reflexivity.
    + destruct (is_lead c) eqn:El.
      * split; [intros [r [=]]|]. intros H. inversion H; subst; congruence.
      * destruct (is_trail c) eqn:Et.
        -- split; [intros [r [=]]|]. intros H. inversion H; subst; congruence.
        -- split; [intros _; apply WP_unit; [exact El|exact Et|constructor]|].
           intros _. eexists. reflexivity.
  - rewrite encode_cons. destruct (unreserved c) eqn:Eu.
    + destruct (unreserved_not_surrogate c Eu) as [A B]. split.
      * intros [r H]. apply WP_unit; [exact A|exact B|]. apply IHts.
        destruct (encodeURIComponent (t :: s)) as [r'|]; [|discriminate].
        exists r'. reflexivity.
      * intros H. inversion H; subst; [|congruence].
        match goal with W : WellPaired (t :: s) |- _ =>
          apply IHts in W; destruct W as [r' ->] end.
        eexists. reflexivity.
    + destruct (is_lead c) eqn:El.
      * destruct (is_trail t) eqn:Et.
        -- split.
           ++ intros [r H]. apply WP_pair; [exact El|exact Et|]. apply IHs.
              destruct (encodeURIComponent s) as [r'|]; [|discriminate].
              exists r'. reflexivity.
           ++ intros H. inversion H; subst; [congruence|].
              match goal with W : WellPaired s |- _ =>
                apply IHs in W; destruct W as [r' ->] end.
              eexists. reflexivity.
        -- split; [intros [r [=]]|]. intros H. inversion H; subst; congruence.
      * destruct (is_trail c) eqn:Et.
        -- split; [intros [r [=]]|]. intros H.
           inversion H; subst; congruence.
        -- split.
           ++ intros [r H]. apply WP_unit; [exact El|exact Et|]. apply IHts.
              destruct (encodeURIComponent (t :: s)) as [r'|]; [|discriminate].
              exists r'. reflexivity.
           ++ intros H. inversion H; subst; [|congruence].
              match goal with W : WellPaired (t :: s) |- _ =>
                apply IHts in W; destruct W as [r' ->] end.
              eexists. reflexivity.
Qed.

Lemma no_surrogate_well_paired (s : jsstring) :
  (forall c, In c s -> (c < 0xD800)%N) -> WellPaired s.
Proof.
  induction s as [|c s IH]; intros H; [constructor|].
  assert (Hc : (c < 0xD800)%N) by (apply H; left; reflexivity).
  apply WP_unit.
  - unfold is_lead, in_range. apply andb_false_iff. left.
    apply N.leb_gt. exact Hc.
  - unfold is_trail, in_range. apply andb_false_iff. left.
    apply N.leb_gt. lia.
  - apply IH. intros d Hd. apply H. right. exact Hd.
Qed.

(** X2.  The launch link exists exactly for the queries in which every
    surrogate code unit is half of a pair; on any other query computing
    the link throws.  In particular it exists for every query whose code
    units are all below U+D800 (ASCII and Cyrillic text included). *)
Theorem googleLink_defined_iff :
  (forall dork, (exists link, googleLink dork = Some link) <-> WellPaired dork) /\
  (forall dork,
     (forall c, In c dork -> (c < 0xD800)%N) ->
     exists link, googleLink dork = Some link).
Proof.
  assert (A : forall dork,
            (exists link, googleLink dork = Some link) <-> WellPaired dork).
  { intros dork. rewrite <- encode_defined_iff. unfold googleLink. split.
    - intros [link H]. destruct (encodeURIComponent dork) as [r|];
        [exists r; reflexivity|discriminate].
    - intros [r ->]. eexists. reflexivity. }
  split; [exact A|].
  intros dork H. apply A, no_surrogate_well_paired, H.
Qed.

Example lone_surrogate_breaks_link :
  googleLink (lit "site:a " ++ [0xD83D%N]) = None.
Proof. vm_compute. reflexivity. Qed.

Example cyrillic_link :
  googleLink [0x441; 0x430; 0x439; 0x442]%N =
  Some (SEARCH_URL ++ lit "%D1%81%D0%B0%D0%B9%D1%82").
Proof. vm_compute. reflexivity. Qed.

Example emoji_link :
  googleLink [0xD83D; 0xDE00]%N = Some (SEARCH_URL ++ lit "%F0%9F%98%80").
Proof. vm_compute. reflexivity. Qed.

(** *** Distinct queries give distinct links *)

Lemma digits64 (x : N) :
  exists q r, (x / 64 = q /\ x mod 64 = r /\ x = 64 * q + r /\ r < 64)%N.
Proof.
  exists (x / 64)%N, (x mod 64)%N.
  repeat split; [apply N.div_mod'|apply N.mod_lt; discriminate].
Qed.

Lemma div_4096 (x : N) : (x / 0x1000 = x / 64 / 64)%N.
Proof. rewrite N.Div0.div_div. reflexivity. Qed.

Lemma div_262144 (x : N) : (x / 0x40000 = x / 64 / 64 / 64)%N.
Proof. rewrite !N.Div0.div_div. reflexivity. Qed.

(** The octets of a code point, with the ranges they lie in and the
    code point read back from them. *)
Lemma utf8_cases (cp : N) :
  (cp < 0x110000)%N ->
  (cp < 0x80 /\ utf8 cp = [cp])%N \/
  (exists b1 b2,
     utf8 cp = [b1; b2] /\
     0x80 <= cp /\ 0xC0 <= b1 < 0xE0 /\ 0x80 <= b2 < 0xC0 /\
     cp = (b1 - 0xC0) * 64 + (b2 - 0x80))%N \/
  (exists b1 b2 b3,
     utf8 cp = [b1; b2; b3] /\
     0x800 <= cp < 0x10000 /\
     0xE0 <= b1 < 0xF0 /\ 0x80 <= b2 < 0xC0 /\ 0x80 <= b3 < 0xC0 /\
     cp = (b1 - 0xE0) * 4096 + (b2 - 0x80) * 64 + (b3 - 0x80))%N \/
  (exists b1 b2 b3 b4,
     utf8 cp = [b1; b2; b3; b4] /\
     0x10000 <= cp /\
     0xF0 <= b1 < 0xF8 /\ 0x80 <= b2 < 0xC0 /\ 0x80 <= b3 < 0xC0 /\
     0x80 <= b4 < 0xC0 /\
     cp = (b1 - 0xF0) * 262144 + (b2 - 0x80) * 4096 + (b3 - 0x80) * 64
          + (b4 - 0x80))%N.
Proof.
  intros Hcp. unfold utf8.
  destruct (N.ltb_spec cp 0x80) as [H1|H1]; [left; auto|].
  right.
  destruct (N.ltb_spec cp 0x800) as [H2|H2].
  { left. eexists _, _. split; [reflexivity|].
    destruct (digits64 cp) as (q & r & Eq & Er & E & Hr).
    change 0x40%N with 64%N. rewrite Eq, Er.
    rewrite (N.mod_small q 0x20) by lia. lia. }
  right.
  destruct (N.ltb_spec cp 0x10000) as [H3|H3].
  { left. eexists _, _, _. split; [reflexivity|].
    rewrite div_4096. change 0x40%N with 64%N.
    destruct (digits64 cp) as (q & r & Eq & Er & E & Hr). rewrite Eq, Er.
    destruct (digits64 q) as (q2 & r2 & Eq2 & Er2 & E2 & Hr2).
    rewrite Eq2, Er2. rewrite (N.mod_small q2 0x10) by lia. lia. }
  right. eexists _, _, _, _. split; [reflexivity|].
  rewrite div_262144, div_4096. change 0x40%N with 64%N.
  destruct (digits64 cp) as (q & r & Eq & Er & E & Hr). rewrite Eq, Er.
  destruct (digits64 q) as (q2 & r2 & Eq2 & Er2 & E2 & Hr2).
  rewrite Eq2, Er2.
  destruct (digits64 q2) as (q3 & r3 & Eq3 & Er3 & E3 & Hr3).
  rewrite Eq3, Er3. rewrite (N.mod_small q3 0x8) by lia. lia.
Qed.

Lemma hex_digit_inj (d1 d2 : N) :
  (d1 < 16)%N -> (d2 < 16)%N -> hex_digit d1 = hex_digit d2 -> d1 = d2.
Proof.
  unfold hex_digit. intros H1 H2.
  destruct (N.ltb_spec d1 10), (N.ltb_spec d2 10); lia.
Qed.

Lemma percent_app_inj (b1 b2 : N) (r1 r2 : jsstring) :
  (b1 < 256)%N -> (b2 < 256)%N ->
  percent b1 ++ r1 = percent b2 ++ r2 -> b1 = b2 /\ r1 = r2.
Proof.
  intros H1 H2. unfold percent. cbn [app]. intros [= Hh Hl Hr].
  split; [|exact Hr].
  apply hex_digit_inj in Hh; [|apply N.mod_lt; discriminate..].
  apply hex_digit_inj in Hl; [|apply N.mod_lt; discriminate..].
  assert (D : forall b, (b < 256)%N ->
            (b = 16 * ((b / 16) mod 16) + b mod 16)%N).
  { intros b Hb. rewrite (N.mod_small (b / 16) 16).
    - apply N.div_mod'.
    - apply N.Div0.div_lt_upper_bound. exact Hb. }
  rewrite (D b1 H1), (D b2 H2), Hh, Hl. reflexivity.
Qed.

Lemma escape_head (cp : N) : exists rest, escape cp = 37%N :: rest.
Proof.
  unfold escape, utf8.
  destruct (cp <? 0x80)%N; [|destruct (cp <? 0x800)%N;
    [|destruct (cp <? 0x10000)%N]]; cbn [flat_map percent app];
    eexists; reflexivity.
Qed.

Ltac peel H :=
  apply percent_app_inj in H; [|lia..];
  let E := fresh "E" in destruct H as [E H].

Lemma escape_app_inj (cp1 cp2 : N) (r1 r2 : jsstring) :
  (cp1 < 0x110000)%N -> (cp2 < 0x110000)%N ->
  escape cp1 ++ r1 = escape cp2 ++ r2 -> cp1 = cp2 /\ r1 = r2.
Proof.
  intros H1 H2. unfold escape.
  destruct (utf8_cases H1)
    as [(A & ->)|[(a1 & a2 & -> & A)|[(a1 & a2 & a3 & -> & A)
       |(a1 & a2 & a3 & a4 & -> & A)]]];
  destruct (utf8_cases H2)
    as [(B & ->)|[(b1 & b2 & -> & B)|[(b1 & b2 & b3 & -> & B)
       |(b1 & b2 & b3 & b4 & -> & B)]]];
  cbn [flat_map]; rewrite <- ?app_assoc, ?app_nil_l; intros H;
  peel H; try (exfalso; lia);
  try (peel H; try (exfalso; lia));
  try (peel H; try (exfalso; lia));
  try (peel H; try (exfalso; lia));
  (split; [lia|exact H]).
Qed.

Lemma encode_head (c : N) (s r : jsstring) :
  encodeURIComponent (c :: s) = Some r ->
  (unreserved c = true /\
   exists r', r = c :: r' /\ encodeURIComponent s = Some r') \/
  (unreserved c = false /\ is_lead c = false /\ is_trail c = false /\
   exists r', r = escape c ++ r' /\ encodeURIComponent s = Some r') \/
  (is_lead c = true /\
   exists t s'' r',
     s = t :: s'' /\ is_trail t = true /\
     r = escape (pair_code_point c t) ++ r' /\
     encodeURIComponent s'' = Some r').
Proof.
  rewrite encode_cons. destruct (unreserved c) eqn:Eu.
  - destruct (encodeURIComponent s) as [r'|]; [|enc_none].
    intros [= <-]. left. eauto.
  - destruct (is_lead c) eqn:El.
    + destruct s as [|t s'']; [enc_none|].
      destruct (is_trail t) eqn:Et; [|enc_none].
      destruct (encodeURIComponent s'') as [r'|] eqn:E; [|enc_none].
      intros [= <-]. right. right. split; [reflexivity|].
      exists t, s'', r'. repeat split; assumption || reflexivity.
    + destruct (is_trail c) eqn:Et; [enc_none|].
      destruct (encodeURIComponent s) as [r'|]; [|enc_none].
      intros [= <-]. right. left. repeat split. eauto.
Qed.

Lemma lead_range (c : N) : is_lead c = true -> (0xD800 <= c <= 0xDBFF)%N.
Proof.
  unfold is_lead, in_range. rewrite andb_true_iff, !N.leb_le. tauto.
Qed.

Lemma trail_range (c : N) : is_trail c = true -> (0xDC00 <= c <= 0xDFFF)%N.
Proof.
  unfold is_trail, in_range. rewrite andb_true_iff, !N.leb_le. tauto.
Qed.

Lemma pair_code_point_range (l t : N) :
  is_lead l = true -> is_trail t = true ->
  (0x10000 <= pair_code_point l t < 0x110000)%N.
Proof.
  intros Hl Ht. apply lead_range in Hl. apply trail_range in Ht.
  unfold pair_code_point. lia.
Qed.

Lemma pair_code_point_inj (l1 t1 l2 t2 : N) :
  is_lead l1 = true -> is_trail t1 = true ->
  is_lead l2 = true -> is_trail t2 = true ->
  pair_code_point l1 t1 = pair_code_point l2 t2 -> l1 = l2 /\ t1 = t2.
Proof.
  intros Hl1 Ht1 Hl2 Ht2.
  apply lead_range in Hl1, Hl2. apply trail_range in Ht1, Ht2.
  unfold pair_code_point. lia.
Qed.

Lemma escape_app_not_nil (cp : N) (r : jsstring) : [] <> escape cp ++ r.
Proof. destruct (escape_head cp) as [x ->]. discriminate. Qed.

Lemma encode_injective (n : nat) :
  forall s1 s2 r,
    List.length s1 < n ->
    code_units s1 -> code_units s2 ->
    encodeURIComponent s1 = Some r -> encodeURIComponent s2 = Some r ->
    s1 = s2.
Proof.
  induction n as [|n IH]; intros s1 s2 r Hn U1 U2 E1 E2; [lia|].
  destruct s1 as [|c1 s1]; destruct s2 as [|c2 s2].
  - reflexivity.
  - injection E1 as <-. exfalso.
    apply encode_head in E2
      as [(_ & r' & E & _)|[(_ & _ & _ & r' & E & _)
         |(_ & t & s'' & r' & _ & _ & E & _)]];
      try discriminate E; exact (escape_app_not_nil _ _ E).
  - injection E2 as <-. exfalso.
    apply encode_head in E1
      as [(_ & r' & E & _)|[(_ & _ & _ & r' & E & _)
         |(_ & t & s'' & r' & _ & _ & E & _)]];
      try discriminate E; exact (escape_app_not_nil _ _ E).
  - cbn [List.length] in Hn.
    inversion U1 as [|? ? Hc1 U1']; subst.
    inversion U2 as [|? ? Hc2 U2']; subst.
    apply encode_head in E1
      as [(Hu1 & r1 & -> & E1)|[(Hu1 & Hl1 & Ht1 & r1 & -> & E1)
         |(Hl1 & t1 & s1' & r1 & -> & Ht1 & -> & E1)]];
    apply encode_head in E2
      as [(Hu2 & r2 & Er & E2)|[(Hu2 & Hl2 & Ht2 & r2 & Er & E2)
         |(Hl2 & t2 & s2' & r2 & -> & Ht2 & Er & E2)]].
    + injection Er as -> ->. f_equal.
      apply (IH s1 s2 r2); auto; lia.
    + destruct (escape_head c2) as [x Hx]. rewrite Hx in Er.
      injection Er as -> _. discriminate Hu1.
    + destruct (escape_head (pair_code_point c2 t2)) as [x Hx].
      rewrite Hx in Er. injection Er as -> _. discriminate Hu1.
    + destruct (escape_head c1) as [x Hx]. rewrite Hx in Er.
      injection Er as <- _. discriminate Hu2.
    + apply escape_app_inj in Er as [-> ->]; [|lia..]. f_equal.
      apply (IH s1 s2 r2); auto; lia.
    + pose proof (pair_code_point_range c2 t2 Hl2 Ht2) as R.
      apply escape_app_inj in Er as [Ec _]; [|lia..]. lia.
    + destruct (escape_head (pair_code_point c1 t1)) as [x Hx].
      rewrite Hx in Er. injection Er as <- _. discriminate Hu2.
    + pose proof (pair_code_point_range c1 t1 Hl1 Ht1) as R.
      apply escape_app_inj in Er as [Ec _]; [|lia..]. lia.
    + pose proof (pair_code_point_range c1 t1 Hl1 Ht1) as R1.
      pose proof (pair_code_point_range c2 t2 Hl2 Ht2) as R2.
      apply escape_app_inj in Er as [Ec ->]; [|lia..].
      apply pair_code_point_inj in Ec as [-> ->]; auto. do 2 f_equal.
      inversion U1' as [|? ? _ U1'']; subst.
      inversion U2' as [|? ? _ U2'']; subst.
      cbn [List.length] in Hn.
      apply (IH s1' s2' r2); auto; lia.
Qed.

(** X3.  The launch link determines the query: two queries (strings of
    16-bit code units) with the same link are the same query. *)
Theorem googleLink_injective (dork1 dork2 link : jsstring) :
  code_units dork1 -> code_units dork2 ->
  googleLink dork1 = Some link -> googleLink dork2 = Some link ->
  dork1 = dork2.
Proof.
  unfold googleLink. intros U1 U2 E1 E2.
  destruct (encodeURIComponent dork1) as [r1|] eqn:H1; [|discriminate].
  destruct (encodeURIComponent dork2) as [r2|] eqn:H2; [|discriminate].
  injection E1 as <-. injection E2 as ->.
  apply (@encode_injective (S (List.length dork1)) dork1 dork2 r1); auto.
Qed.

Lemma googleLink_injective_witness :
  code_units (lit "a b") /\
  googleLink (lit "a b") = Some (SEARCH_URL ++ lit "a%20b") /\
  lit "a b" = lit "a b".
Proof.
  assert (U : code_units (lit "a b"))
    by (repeat constructor).
  split; [exact U|]. split; [reflexivity|].
  apply (@googleLink_injective (lit "a b") (lit "a b")
           (SEARCH_URL ++ lit "a%20b") U U); reflexivity.
Defined.

End UriFacts.

(** ** The syntax highlighter *)

Module HighlighterFacts.
Import RegexFacts.

Example highlight_dork :
  DorkHighlighter (lit "site:.edu -inurl:x (a|b)") =
  Some [ (Plain, []); (Operator, lit "site:"); (Plain, lit ".edu");
         (Plain, lit " "); (Plain, []); (Operator, lit "-inurl:");
         (Plain, lit "x"); (Plain, lit " "); (Plain, []);
         (Bracket, lit "("); (Plain, lit "a"); (Bracket, lit "|");
         (Plain, lit "b"); (Bracket, lit ")"); (Plain, []) ].
Proof. vm_compute. reflexivity. Qed.

Example highlight_phrases :
  DorkHighlighter
    ([dquote] ++ lit "index.of" ++ [dquote] ++ lit " "
     ++ [dquote] ++ lit "hello world" ++ [dquote]) =
  Some [ (Phrase, [dquote] ++ lit "index.of" ++ [dquote]);
         (Plain, lit " "); (Plain, [dquote] ++ lit "hello");
         (Plain, lit " "); (Plain, lit "world" ++ [dquote]) ].
Proof. vm_compute. reflexivity. Qed.

(** *** Every match is a prefix of the string and a word of the pattern *)

Lemma star_runs_ok (r : regex) (body : jsstring -> list (jsstring * jsstring)) :
  (forall s x, In x (body s) -> run_ok r s x) ->
  forall n s x, In x (star_runs body n s) -> run_ok (Star r) s x.
Proof.
  intros Hbody. induction n as [|n IH]; intros s x; cbn [star_runs].
  - intros [<-|[]]. split; [reflexivity|constructor].
  - rewrite in_app_iff, in_flat_map.
    intros [(y & Hy & Hx)|[<-|[]]]; [|split; [reflexivity|constructor]].
    destruct (Hbody s y Hy) as [Es My]. destruct y as [m1 rest1].
    cbn [fst snd] in *.
    destruct m1 as [|c m]; [destruct Hx|].
    apply in_map_iff in Hx as (z & <- & Hz).
    destruct (IH rest1 z Hz) as [Ez Mz]. split; cbn [fst snd].
    + rewrite Es, Ez, app_assoc. reflexivity.
    + apply MStarApp; assumption.
Qed.

Lemma runs_ok (r : regex) :
  forall s x, In x (runs r s) -> run_ok r s x.
Proof.
  induction r as [| |p|r1 IH1 r2 IH2|r1 IH1 r2 IH2|r IH]; intros s x;
    cbn [runs].
  - intros [].
  - intros [<-|[]]. split; [reflexivity|constructor].
  - destruct s as [|c s']; [intros []|].
    destruct (p c) eqn:Ep; [|intros []].
    intros [<-|[]]. split; [reflexivity|apply MChars, Ep].
  - rewrite in_app_iff. intros [H|H].
    + destruct (IH1 s x H). split; [assumption|apply MAltL; assumption].
    + destruct (IH2 s x H). split; [assumption|apply MAltR; assumption].
  - rewrite in_flat_map. intros (y & Hy & Hx).
    apply in_map_iff in Hx as (z & <- & Hz).
    destruct (IH1 s y Hy) as [Ey My]. destruct (IH2 (snd y) z Hz) as [Ez Mz].
    split; cbn [fst snd].
    + rewrite Ey. rewrite Ez at 1. apply app_assoc.
    + apply MCat; assumption.
  - apply star_runs_ok. exact IH.
Qed.

Lemma exec_at_ok (r : regex) (s m rest : jsstring) :
  exec_at r s = Some (m, rest) -> s = m ++ rest /\ Matches r m.
Proof.
  unfold exec_at. intros H.
  destruct (runs r s) as [|x l] eqn:E; [discriminate|].
  injection H as ->.
  apply (runs_ok r s (m, rest)). rewrite E. left. reflexivity.
Qed.

(** *** The parts put together give the string back *)

Lemma split_loop_concat (re : regex) (fuel : nat) :
  forall piece s, List.concat (split_loop re fuel piece s) = piece ++ s.
Proof.
  induction fuel as [|n IH]; intros piece s; cbn [split_loop].
  - cbn. apply app_nil_r.
  - destruct s as [|c s']; [cbn; rewrite !app_nil_r; reflexivity|].
    assert (A : List.concat (split_loop re n (piece ++ [c]) s') = piece ++ c :: s')
      by (rewrite IH, <- app_assoc; reflexivity).
    destruct (exec_at re (c :: s')) as [[m rest]|] eqn:E; [|exact A].
    apply exec_at_ok in E as [Es _].
    assert (B : List.concat (piece :: m :: split_loop re n [] rest)
                = piece ++ c :: s')
      by (cbn [List.concat]; rewrite IH, Es; reflexivity).
    destruct m as [|d m]; [destruct piece as [|e piece]|]; assumption.
Qed.

Lemma split_concat (re : regex) (s : jsstring) :
  s <> [] -> List.concat (split re s) = s.
Proof.
  destruct s as [|c s]; [congruence|]. intros _.
  unfold split. apply split_loop_concat.
Qed.

(** X4.  The highlighter shows the query and nothing else: for a
    non-empty query the texts of the spans, put together in order, are
    the query; only the empty query gets the placeholder. *)
Theorem highlighter_shows_the_query (dork : jsstring) :
  match DorkHighlighter dork with
  | Some parts => dork <> [] /\ List.concat (map snd parts) = dork
  | None => dork = []
  end.
Proof.
  unfold DorkHighlighter. destruct dork as [|c s]; [reflexivity|].
  cbn [truthy]. split; [discriminate|].
  rewrite map_map. cbn [snd]. rewrite map_id.
  apply split_concat. discriminate.
Qed.

(** *** White space is always split off *)

Lemma Matches_Star_Chars_gen (r : regex) (m : jsstring) :
  Matches r m ->
  forall p, r = Star (Chars p) -> forall c, In c m -> p c = true.
Proof.
  induction 1 as [| | | | | |r0 w1 w2 H1 _ H2 IH2]; intros q Er d Hd;
    try discriminate.
  - destruct Hd.
  - injection Er as ->. apply in_app_iff in Hd as [Hd|Hd].
    + apply Matches_Chars in H1 as (e & -> & He).
      destruct Hd as [<-|[]]. exact He.
    + apply (IH2 q eq_refl d Hd).
Qed.

Lemma Matches_Plus_Chars_all (p : N -> bool) (m : jsstring) :
  Matches (Plus (Chars p)) m ->
  m <> [] /\ forall c, In c m -> p c = true.
Proof.
  intros H. apply Matches_Cat_inv in H as (m1 & m2 & -> & H1 & H2).
  apply Matches_Chars in H1 as (e & -> & He). split; [discriminate|].
  intros c [<-|Hc]; [exact He|].
  apply (Matches_Star_Chars_gen H2 eq_refl c Hc).
Qed.

Lemma Matches_any_of (words : list jsstring) (m : jsstring) :
  Matches (any_of words) m <-> In m words.
Proof.
  induction words as [|w ws IH]; cbn [any_of fold_right In].
  - split; [intros H; destruct (Matches_Void_inv H)|intros []].
  - split.
    + intros H. apply Matches_Alt_inv in H as [H|H].
      * left. symmetry. apply Matches_Str, H.
      * right. apply IH, H.
    + intros [<-|H]; [apply MAltL, Matches_Str; reflexivity|].
      apply MAltR, IH, H.
Qed.

(** A separator is a run of white space or a token free of it. *)
Lemma re_split_word (m : jsstring) :
  Matches re_split m ->
  m <> [] /\
  ((forall c, In c m -> is_space c = true) \/
   (forall c, In c m -> is_space c = false)).
Proof.
  unfold re_split. intros H.
  apply Matches_Alt_inv in H as [H|H].
  { apply Matches_Plus_Chars_all in H as [H1 H2]. auto. }
  assert (T : In m ([[124%N]; [40%N]; [41%N]] ++ operator_tokens)).
  { apply Matches_Alt_inv in H as [H|H];
      [apply Matches_One in H as ->; left; reflexivity|].
    apply Matches_Alt_inv in H as [H|H];
      [apply Matches_One in H as ->; right; left; reflexivity|].
    apply Matches_Alt_inv in H as [H|H];
      [apply Matches_One in H as ->; do 2 right; left; reflexivity|].
    do 3 right. apply Matches_any_of, H. }
  clear H. cbn in T.
  repeat (destruct T as [<-|T];
          [split; [discriminate|right; intros c Hc; cbn in Hc;
             repeat (destruct Hc as [<-|Hc]; [reflexivity|]);
             destruct Hc]|]).
  destruct T.
Qed.

Lemma star_runs_not_nil (body : jsstring -> list (jsstring * jsstring))
  (n : nat) (s : jsstring) : star_runs body n s <> [].
Proof.
  destruct n; cbn [star_runs]; [discriminate|].
  intros H. apply app_eq_nil in H as [_ H]. discriminate.
Qed.

(** At a white-space unit the pattern always finds a separator. *)
Lemma exec_at_space (c : N) (s' : jsstring) :
  is_space c = true -> exec_at re_split (c :: s') <> None.
Proof.
  intros Hc.
  assert (A : runs (Plus (Chars is_space)) (c :: s') <> []).
  { unfold Plus. cbn [runs]. rewrite Hc. cbn [flat_map fst snd].
    intros H. apply app_eq_nil in H as [H _]. apply map_eq_nil in H.
    exact (star_runs_not_nil _ _ _ H). }
  unfold exec_at, re_split. cbn [runs].
  destruct (runs (Plus (Chars is_space)) (c :: s')); [congruence|].
  cbn. discriminate.
Qed.

Lemma split_loop_parts (fuel : nat) :
  forall piece s,
    List.length s < fuel ->
    (forall c, In c piece -> is_space c = false) ->
    forall part, In part (split_loop re_split fuel piece s) ->
      (forall c, In c part -> is_space c = true) \/
      (forall c, In c part -> is_space c = false).
Proof.
  induction fuel as [|n IH]; intros piece s Hn Hp part; [lia|].
  cbn [split_loop]. destruct s as [|c s'].
  - intros [<-|[]]. right. exact Hp.
  - cbn [List.length] in Hn.
    destruct (exec_at re_split (c :: s')) as [[m rest]|] eqn:E.
    + apply exec_at_ok in E as [Es Mm].
      apply re_split_word in Mm as [Hm Hw].
      assert (Hr : List.length rest < n).
      { apply (f_equal (@List.length N)) in Es.
        rewrite length_app in Es. cbn [List.length] in Es.
        destruct m; [congruence|]. cbn [List.length] in Es. lia. }
      destruct m as [|d m]; [congruence|].
      intros [<-|[<-|H]]; [right; exact Hp|exact Hw|].
      apply (IH [] rest Hr); [intros ? []|exact H].
    + apply IH; [lia|].
      intros d Hd. apply in_app_iff in Hd as [Hd|[->|[]]]; [apply Hp, Hd|].
      destruct (is_space d) eqn:Ed; [|reflexivity].
      destruct (@exec_at_space d s' Ed E).
Qed.

Lemma phrase_starts_with_quote (text : jsstring) :
  style_of text = Phrase -> exists rest, text = dquote :: rest.
Proof.
  unfold style_of.
  destruct (matches re_operator text); [discriminate|].
  destruct (matches re_bracket text); [discriminate|].
  destruct (matches re_phrase text) eqn:E; [|discriminate].
  intros _. apply matches_spec in E. unfold re_phrase in E.
  apply Matches_Cat_inv in E as (m1 & m2 & -> & H1 & _).
  apply Matches_One in H1 as ->. exists m2. reflexivity.
Qed.

(** X5.  White space is always split off: a span of the highlighter is
    either made of white space only or holds none at all.  So a span
    shown as a quoted phrase never holds white space, and a quoted phrase
    of several words is never shown as one. *)
Theorem spans_never_mix_white_space (dork : jsstring)
  (parts : list (Style * jsstring)) :
  DorkHighlighter dork = Some parts ->
  forall style text, In (style, text) parts ->
    ((forall c, In c text -> is_space c = true) \/
     (forall c, In c text -> is_space c = false)) /\
    (style = Phrase -> forall c, In c text -> is_space c = false).
Proof.
  unfold DorkHighlighter. destruct dork as [|d s]; [discriminate|].
  cbn [truthy]. intros [= <-] style text Hin.
  apply in_map_iff in Hin as (part & [= <- <-] & Hpart).
  assert (D : (forall c, In c part -> is_space c = true) \/
              (forall c, In c part -> is_space c = false)).
  { unfold split in Hpart.
    apply (@split_loop_parts (2 * List.length (d :: s) + 1) [] (d :: s));
      [lia|intros ? []|exact Hpart]. }
  split; [exact D|]. intros Hs.
  destruct (phrase_starts_with_quote part Hs) as [rest ->].
  destruct D as [D|D]; [|exact D].
  specialize (D dquote (or_introl eq_refl)). discriminate D.
Qed.

Lemma spans_never_mix_white_space_witness :
  DorkHighlighter ([dquote] ++ lit "a b" ++ [dquote]) =
  Some [ (Plain, [dquote] ++ lit "a"); (Plain, lit " ");
         (Plain, lit "b" ++ [dquote]) ] /\
  ((forall c, In c (lit " ") -> is_space c = true) \/
   (forall c, In c (lit " ") -> is_space c = false)).
Proof.
  split; [vm_compute; reflexivity|].
  apply (@spans_never_mix_white_space ([dquote] ++ lit "a b" ++ [dquote])
           [ (Plain, [dquote] ++ lit "a"); (Plain, lit " ");
             (Plain, lit "b" ++ [dquote]) ] eq_refl Plain (lit " ")).
  right. left. reflexivity.
Defined.

(** *** The bounds on the number of rounds are enough *)

Lemma flat_map_ext_In (A B : Type) (f g : A -> list B) (l : list A) :
  (forall a, In a l -> f a = g a) -> flat_map f l = flat_map g l.
Proof.
  induction l as [|a l IH]; intros H; [reflexivity|].
  cbn [flat_map]. rewrite (H a (or_introl eq_refl)), IH; [reflexivity|].
  intros b Hb. apply H. right. exact Hb.
Qed.

Lemma flat_map_nil (A B : Type) (f : A -> list B) (l : list A) :
  (forall a, In a l -> f a = []) -> flat_map f l = [].
Proof.
  induction l as [|a l IH]; intros H; [reflexivity|].
  cbn [flat_map]. rewrite (H a (or_introl eq_refl)), IH; [reflexivity|].
  intros b Hb. apply H. right. exact Hb.
Qed.

(** Once the fuel covers the length of the string, more fuel changes
    nothing in the matches of a repetition. *)
Lemma star_runs_fuel (body : jsstring -> list (jsstring * jsstring)) :
  (forall s x, In x (body s) -> s = fst x ++ snd x) ->
  forall n1 n2 s,
    List.length s <= n1 -> List.length s <= n2 ->
    star_runs body n1 s = star_runs body n2 s.
Proof.
  intros Hbody.
  assert (Z : forall n, star_runs body n [] = [([], [])]).
  { intros [|n]; [reflexivity|]. cbn [star_runs].
    rewrite flat_map_nil; [reflexivity|].
    intros x Hx. apply Hbody in Hx. symmetry in Hx. cbv beta.
    destruct x as [m rest]. cbn [fst snd] in *.
    apply app_eq_nil in Hx as [-> _]. reflexivity. }
  induction n1 as [|n1 IH]; intros n2 s H1 H2.
  - destruct s; [|cbn in H1; lia]. rewrite !Z. reflexivity.
  - destruct s as [|c s]; [rewrite !Z; reflexivity|].
    destruct n2 as [|n2]; [cbn in H2; lia|].
    cbn [star_runs]. f_equal. apply flat_map_ext_In.
    intros x Hx. apply Hbody in Hx. cbv beta.
    destruct x as [m rest]. cbn [fst snd] in *.
    destruct m as [|d m]; [reflexivity|].
    rewrite (IH n2 rest); [reflexivity| |];
      apply (f_equal (@List.length N)) in Hx;
      rewrite length_app in Hx; cbn [List.length] in *; lia.
Qed.

(** Once the fuel covers the rounds needed, more fuel changes nothing in
    the parts [split] returns. *)
Lemma split_loop_fuel (re : regex) (f1 : nat) :
  forall f2 piece s,
    rounds_needed piece s <= f1 -> rounds_needed piece s <= f2 ->
    split_loop re f1 piece s = split_loop re f2 piece s.
Proof.
  induction f1 as [|n1 IH]; intros f2 piece s H1 H2.
  - destruct s as [|c s]; [|cbn in H1; lia].
    destruct f2; cbn [split_loop]; rewrite ?app_nil_r; reflexivity.
  - destruct s as [|c s'].
    { destruct f2; cbn [split_loop]; rewrite ?app_nil_r; reflexivity. }
    destruct f2 as [|n2]; [cbn in H2; lia|].
    cbn [split_loop].
    assert (A : split_loop re n1 (piece ++ [c]) s'
                = split_loop re n2 (piece ++ [c]) s').
    { apply IH; unfold rounds_needed in *; cbn [List.length] in *;
        destruct s'; try lia; destruct piece; cbn [app List.length] in *;
        lia. }
    destruct (exec_at re (c :: s')) as [[m rest]|] eqn:E; [|exact A].
    apply exec_at_ok in E as [Es _].
    apply (f_equal (@List.length N)) in Es. rewrite length_app in Es.
    assert (B : m <> [] \/ piece <> [] ->
                split_loop re n1 [] rest = split_loop re n2 [] rest).
    { intros Hmp. apply IH; unfold rounds_needed in *;
        cbn [List.length] in *; destruct rest; try lia;
        cbn [List.length] in *;
        destruct m; destruct piece; cbn [List.length] in *;
        try lia; destruct Hmp; congruence. }
    destruct m as [|d m]; [destruct piece as [|e piece]|].
    + exact A.
    + rewrite B; [reflexivity|right; discriminate].
    + rewrite B; [reflexivity|left; discriminate].
Qed.

End HighlighterFacts.

(** ** The other handlers and the session as a whole *)

Module SessionFacts.
Import JSFacts ControllerFacts.

(** *** [trim] *)

Lemma trimStart_head (s : jsstring) (c : N) (rest : jsstring) :
  trimStart s = c :: rest -> is_space c = false.
Proof.
  induction s as [|d s IH]; cbn [trimStart]; [discriminate|].
  destruct (is_space d) eqn:Ed; [exact IH|].
  intros [= <- _]. exact Ed.
Qed.

Lemma trimStart_suffix (s : jsstring) :
  exists pre, s = pre ++ trimStart s.
Proof.
  induction s as [|d s [pre IH]]; cbn [trimStart]; [exists []; reflexivity|].
  destruct (is_space d).
  - exists (d :: pre). cbn. f_equal. exact IH.
  - exists []. reflexivity.
Qed.

Lemma trimEnd_prefix (s : jsstring) : exists post, s = trimEnd s ++ post.
Proof.
  unfold trimEnd. destruct (trimStart_suffix (rev s)) as [pre E].
  exists (rev pre). rewrite <- rev_app_distr, <- E, rev_involutive.
  reflexivity.
Qed.

Lemma trimEnd_last (s init : jsstring) (c : N) :
  trimEnd s = init ++ [c] -> is_space c = false.
Proof.
  unfold trimEnd. intros H. apply (f_equal (@rev N)) in H.
  rewrite rev_involutive, rev_app_distr in H. cbn in H.
  exact (trimStart_head _ H).
Qed.

Lemma trim_head (s : jsstring) (c : N) (rest : jsstring) :
  trim s = c :: rest -> is_space c = false.
Proof.
  unfold trim. intros H.
  destruct (trimEnd_prefix (trimStart s)) as [post E]. rewrite H in E.
  exact (trimStart_head s E).
Qed.

Lemma trim_last (s init : jsstring) (c : N) :
  trim s = init ++ [c] -> is_space c = false.
Proof. unfold trim. apply trimEnd_last. Qed.

Lemma blank_app (a b : jsstring) : blank (a ++ b) = blank a && blank b.
Proof. unfold blank. apply forallb_app. Qed.

Section Runtime.

Variable API_KEY : jsstring.
Variable JSON_parse : parser.
Variable TypeError_message : json -> jsstring.

(** *** The enhancement of the objective *)

(** X8.  The guards of the enhancement: a blank objective makes it do
    nothing, credential or not; a missing credential makes it set its
    error message and nothing else; otherwise exactly one request goes
    out, built from the objective, with the error cleared and the
    optimizing flag set.  In no case is the result on display
    touched. *)
Theorem enhancement_guards (st : State) :
  (blank (naturalInput st) = true ->
   step API_KEY JSON_parse TypeError_message EnhanceRequested st
   = Some (st, [])) /\
  (blank (naturalInput st) = false -> truthy API_KEY = false ->
   step API_KEY JSON_parse TypeError_message EnhanceRequested st
   = Some (setError (Some API_KEY_MISSING) st, [])) /\
  (blank (naturalInput st) = false -> truthy API_KEY = true ->
   step API_KEY JSON_parse TypeError_message EnhanceRequested st =
   Some (setError None (setIsOptimizing true st),
         [CallEnhance (enhancement_request (naturalInput st))])) /\
  (forall st' effects,
     step API_KEY JSON_parse TypeError_message EnhanceRequested st
     = Some (st', effects) ->
     same_result st st').
Proof.
  unfold step, handleOptimizePrompt_sync.
  destruct (blank (naturalInput st)) eqn:Eb.
  - pose proof (proj2 (trim_nil_iff _) Eb) as Et. rewrite Et. cbn.
    split; [reflexivity|]. split; [discriminate|]. split; [discriminate|].
    intros st' effects [= <- _]. repeat split.
  - pose proof (proj2 (trim_truthy_iff _) Eb) as Et. rewrite Et.
    split; [discriminate|].
    destruct (truthy API_KEY); cbn.
    + split; [discriminate|]. split; [reflexivity|].
      intros st' effects [= <- _]. repeat split.
    + split; [reflexivity|]. split; [discriminate|].
      intros st' effects [= <- _]. repeat split.
Qed.

(** X9.  When the enhancement settles, the optimizing flag is cleared
    and the result on display is untouched, whatever the outcome.  A
    non-empty answer replaces the objective by the answer trimmed, which
    neither starts nor ends with white space; a rejection leaves the
    objective and sets the error message of the enhancement. *)
Theorem enhancement_settles (outcome : Outcome) (st : State) :
  same_result st (handleOptimizePrompt_resume outcome st) /\
  isOptimizing (handleOptimizePrompt_resume outcome st) = false /\
  (forall text,
     outcome = Resolved (Some text) -> text <> [] ->
     naturalInput (handleOptimizePrompt_resume outcome st) = trim text /\
     error (handleOptimizePrompt_resume outcome st) = error st /\
     (forall c rest, trim text = c :: rest -> is_space c = false) /\
     (forall init c, trim text = init ++ [c] -> is_space c = false)) /\
  (forall message,
     outcome = Rejected message ->
     naturalInput (handleOptimizePrompt_resume outcome st) = naturalInput st /\
     error (handleOptimizePrompt_resume outcome st)
     = Some OPTIMIZATION_FAILED).
Proof.
  split; [|split; [|split]].
  - destruct outcome as [[text|]|m]; cbn; [destruct (truthy text)| |];
      repeat split.
  - destruct outcome as [[text|]|m]; cbn; [destruct (truthy text)| |];
      reflexivity.
  - intros text -> Ht. cbn. apply truthy_true in Ht. rewrite Ht.
    split; [reflexivity|]. split; [reflexivity|].
    split; [apply trim_head|apply trim_last].
  - intros m ->. split; reflexivity.
Qed.

(** X10.  An answer of white space only erases the objective: after it,
    asking for a generation or for another enhancement does nothing at
    all. *)
Theorem blank_enhancement_erases_objective (text : jsstring) (st : State) :
  text <> [] -> blank text = true ->
  naturalInput (handleOptimizePrompt_resume (Resolved (Some text)) st) = [] /\
  step API_KEY JSON_parse TypeError_message GenerateRequested
    (handleOptimizePrompt_resume (Resolved (Some text)) st)
  = Some (handleOptimizePrompt_resume (Resolved (Some text)) st, []) /\
  step API_KEY JSON_parse TypeError_message EnhanceRequested
    (handleOptimizePrompt_resume (Resolved (Some text)) st)
  = Some (handleOptimizePrompt_resume (Resolved (Some text)) st, []).
Proof.
  intros Ht Hb. apply truthy_true in Ht. apply trim_nil_iff in Hb.
  cbn [handleOptimizePrompt_resume]. rewrite Ht, Hb.
  split; [reflexivity|]. split; reflexivity.
Qed.

(** *** The generation *)

(** How the continuation of a generation can end. *)
Lemma resume_cases (inputToUse : jsstring) (now : N) (outcome : Outcome) :
  (exists m,
     generateWithAI_resume JSON_parse TypeError_message inputToUse now outcome
     = failed m) \/
  generateWithAI_resume JSON_parse TypeError_message inputToUse now outcome
  = idle \/
  (exists o d,
     get (lit "dork") o = Some (JString d) /\
     generateWithAI_resume JSON_parse TypeError_message inputToUse now outcome
     = succeeded inputToUse now o d).
Proof.
  unfold generateWithAI_resume.
  destruct outcome as [[text|]|m];
    [|right; left; reflexivity|left; eexists; reflexivity].
  destruct (truthy text); [|right; left; reflexivity].
  destruct (JSON_parse text) as [m|data]; [left; eexists; reflexivity|].
  unfold on_parsed.
  destruct data as [| | | | |o]; try (left; eexists; reflexivity).
  destruct (get (lit "dork") o) as [[| | |d| |]|] eqn:E;
    try (left; eexists; reflexivity).
  right. right. exists o, d. auto.
Qed.

(** How the synchronous part of a generation can end. *)
Lemma sync_cases (overrideInput : option jsstring) (st : State) :
  generateWithAI_sync API_KEY overrideInput st = nothing \/
  generateWithAI_sync API_KEY overrideInput st =
    {| updates := setError (Some ABORTED); deps_changed := false;
       calls := [] |} \/
  (blank (inputToUse overrideInput st) = false /\ truthy API_KEY = true /\
   generateWithAI_sync API_KEY overrideInput st =
    {| updates := fun st' =>
         setAnalysis None
           (setSyntaxErrors [] (setError None (setIsLoading true st')));
       deps_changed :=
         match analysis st with Some _ => true | None => false end;
       calls := [generation_request (inputToUse overrideInput st)] |}).
Proof.
  destruct (blank (inputToUse overrideInput st)) eqn:Eb.
  - left. apply sync_blank, Eb.
  - right. rewrite (sync_not_blank API_KEY _ _ Eb).
    destruct (truthy API_KEY); cbn [negb]; auto.
Qed.

Lemma effect_cases (st : State) :
  (syncManualEffect st = st /\
   (analysis st <> None \/ manual_parts (manualParams st) = [])) \/
  (syncManualEffect st = setDork (composed (manualParams st)) st /\
   analysis st = None /\ manual_parts (manualParams st) <> []).
Proof.
  unfold syncManualEffect, composed. destruct (analysis st).
  - left. split; [reflexivity|left; discriminate].
  - destruct (manual_parts (manualParams st)) eqn:E; cbn.
    + left. auto.
    + right. repeat split. discriminate.
Qed.

(** *** What every reachable state satisfies *)

Lemma Invariant_frame (st st' : State) :
  history st' = history st -> analysis st' = analysis st ->
  dork st' = dork st -> syntaxErrors st' = syntaxErrors st ->
  manualParams st' = manualParams st ->
  Invariant st -> Invariant st'.
Proof.
  unfold Invariant, result_consistent, manual_consistent.
  intros -> -> -> -> ->. tauto.
Qed.

Lemma Invariant_effect (st : State) :
  List.length (history st) <= 10 ->
  (forall item, In item (history st) -> loadable item) ->
  result_consistent st ->
  Invariant (syncManualEffect st).
Proof.
  intros H1 H2 H3.
  destruct (effect_cases st) as [[-> [Ha|Hp]]|(-> & Ha & Hp)].
  - split; [exact H1|]. split; [exact H2|]. split; [exact H3|].
    intros Hn. contradiction.
  - split; [exact H1|]. split; [exact H2|]. split; [exact H3|].
    intros _ Hn. contradiction.
  - split; [exact H1|]. split; [exact H2|]. split.
    + intros a Hsome. cbn in Hsome. congruence.
    + intros _ _. reflexivity.
Qed.

Lemma In_firstn (A : Type) (n : nat) (l : list A) (x : A) :
  In x (firstn n l) -> In x l.
Proof.
  intros H. rewrite <- (firstn_skipn n l). apply in_or_app. left. exact H.
Qed.

Ltac frame := eapply Invariant_frame; [..|eassumption]; reflexivity.

Lemma Invariant_pending (st st0 : State) :
  Invariant st ->
  history st0 = history st -> dork st0 = dork st ->
  manualParams st0 = manualParams st -> analysis st0 = analysis st ->
  Invariant
    (commit
       {| updates := fun st' =>
            setAnalysis None
              (setSyntaxErrors [] (setError None (setIsLoading true st')));
          deps_changed :=
            match analysis st with Some _ => true | None => false end;
          calls := [] |}
       st0).
Proof.
  intros (H1 & H2 & H3 & H4) Eh Ed Em Ea.
  unfold commit. cbn [updates deps_changed].
  destruct (analysis st) eqn:E.
  - apply Invariant_effect; cbn; rewrite ?Eh; try assumption.
    intros a [=].
  - split; [cbn; rewrite Eh; exact H1|].
    split; [cbn; rewrite Eh; exact H2|].
    split; [intros a [=]|].
    unfold manual_consistent. cbn. rewrite Ed, Em. intros _. apply H4.
    exact E.
Qed.

Lemma Invariant_sync (overrideInput : option jsstring) (st st0 : State) :
  Invariant st -> Invariant st0 ->
  history st0 = history st -> dork st0 = dork st ->
  manualParams st0 = manualParams st -> analysis st0 = analysis st ->
  Invariant
    (commit
       {| updates := fun st' =>
            updates (generateWithAI_sync API_KEY overrideInput st) st';
          deps_changed :=
            deps_changed (generateWithAI_sync API_KEY overrideInput st);
          calls := [] |}
       st0).
Proof.
  intros HI HI0 Eh Ed Em Ea.
  destruct (sync_cases overrideInput st) as [->|[->|(_ & _ & ->)]].
  - exact HI0.
  - unfold commit. cbn [updates deps_changed nothing]. frame.
  - apply Invariant_pending; assumption.
Qed.

Lemma step_Invariant (ev : Event) (st st' : State) (effects : list Effect) :
  Invariant st ->
  step API_KEY JSON_parse TypeError_message ev st = Some (st', effects) ->
  Invariant st'.
Proof.
  intros HI. pose proof HI as (H1 & H2 & H3 & H4).
  destruct ev as [value|name value| |input now outcome| |outcome| |index
                 |index| | |]; cbn [step].
  - intros [= <- _]. frame.
  - intros [= <- _]. unfold commit, handleManualChange.
    cbn [updates deps_changed]. apply Invariant_effect; cbn; try assumption.
    intros a [=].
  - intros [= <- _].
    apply (@Invariant_sync None st st HI HI); reflexivity.
  - intros [= <- _].
    destruct (resume_cases input now outcome) as [[m ->]|[->|(o & d & E & ->)]].
    + unfold commit, failed. cbn [updates deps_changed]. frame.
    + unfold commit, idle. cbn [updates deps_changed]. frame.
    + unfold commit, succeeded. cbn [updates deps_changed].
      unfold syncManualEffect. cbn -[validatePayload record].
      split; [apply LedgerFacts.record_length|].
      split; [|split].
      * intros item Hin. unfold record in Hin. apply In_firstn in Hin.
        destruct Hin as [<-|Hin]; [exists d; exact E|apply H2, Hin].
      * intros a [= <-]. cbn -[validatePayload]. auto.
      * intros [=].
  - intros [= <- _]. unfold handleOptimizePrompt_sync.
    destruct (negb (truthy (trim (naturalInput st)))); [exact HI|].
    destruct (negb (truthy API_KEY)); cbn [fst]; frame.
  - intros [= <- _].
    destruct outcome as [[text|]|m]; cbn [handleOptimizePrompt_resume];
      [destruct (truthy text)| |]; frame.
  - unfold handleApplyImprovement.
    destruct (analysis st) as [a|] eqn:Ea; [|intros [= <- _]; exact HI].
    destruct (get (lit "refinedObjective") a) as [[|[|]| |x| |]|];
      try discriminate; try (intros [= <- _]; exact HI).
    destruct (truthy x); [|intros [= <- _]; exact HI].
    intros [= <- _].
    assert (HIx : Invariant (setNaturalInput x st)) by frame.
    pose proof (@Invariant_sync (Some x) st (setNaturalInput x st) HI HIx
                  eq_refl eq_refl eq_refl eq_refl) as K.
    exact K.
  - destruct (nth_error (history st) index) as [item|] eqn:En;
      [|discriminate].
    unfold handleHistoryClick.
    destruct (get (lit "dork") (response item)) as [[| | |d| |]|] eqn:E;
      try discriminate.
    intros [= <- _]. unfold commit. cbn [updates deps_changed].
    unfold syncManualEffect. cbn -[validatePayload].
    split; [exact H1|]. split; [exact H2|]. split.
    + intros a [= <-]. cbn -[validatePayload]. auto.
    + intros [=].
  - destruct (analysis st) as [a|]; [|discriminate].
    destruct (vector_at a index); [|discriminate].
    intros [= <- _]. frame.
  - intros [= <- _]. frame.
  - intros [= <- _]. unfold handleCopy.
    destruct (negb (truthy (dork st))); cbn [fst]; [exact HI|frame].
  - intros [= <- _]. frame.
Qed.

Lemma mount_Invariant : Invariant (mountEffect API_KEY initialState).
Proof.
  unfold mountEffect. destruct (negb (truthy API_KEY)).
  - repeat split; cbn; try lia; try contradiction; try discriminate.
  - repeat split; cbn; try lia; try contradiction; try discriminate.
Qed.

Lemma Reachable_Invariant (st : State) :
  Reachable API_KEY JSON_parse TypeError_message st -> Invariant st.
Proof.
  induction 1 as [|ev st st' effects _ IH Hstep].
  - apply mount_Invariant.
  - exact (step_Invariant ev IH Hstep).
Qed.

(** X11.  The ledger never holds more than ten entries in any state the
    session can reach, and no event edits or removes an entry except by
    eviction at the far end: an event leaves the ledger as it was, unless
    it is a settled generation, which puts its own entry in front of the
    first nine. *)
Theorem ledger_bounded_and_append_only :
  (forall st,
     Reachable API_KEY JSON_parse TypeError_message st ->
     List.length (history st) <= 10) /\
  (forall ev st st' effects,
     step API_KEY JSON_parse TypeError_message ev st = Some (st', effects) ->
     history st' = history st \/
     exists inputToUse now outcome o,
       ev = GenerateSettled inputToUse now outcome /\
       history st' =
         {| timestamp := now; input := inputToUse; response := o |}
         :: firstn 9 (history st)).
Proof.
  split.
  - intros st H. apply Reachable_Invariant in H. apply H.
  - intros ev st st' effects.
    destruct ev as [value|name value| |input now outcome| |outcome| |index
                   |index| | |]; cbn [step].
    + intros [= <- _]. left. reflexivity.
    + intros [= <- _]. left. unfold commit, handleManualChange.
      cbn [updates deps_changed].
      destruct (effect_cases
                  (setManualParams (withField (manualParams st) name value)
                     (setAnalysis None st))) as [[-> _]|[-> _]];
        reflexivity.
    + intros [= <- _]. left.
      destruct (sync_cases None st) as [->|[->|(_ & _ & ->)]];
        try reflexivity.
      unfold commit. cbn [updates deps_changed].
      destruct (analysis st); [|reflexivity].
      match goal with |- history (syncManualEffect ?s) = _ =>
        destruct (effect_cases s) as [[-> _]|[-> _]] end; reflexivity.
    + intros [= <- _].
      destruct (resume_cases input now outcome)
        as [[m ->]|[->|(o & d & E & ->)]]; [left; reflexivity..|].
      right. exists input, now, outcome, o. split; reflexivity.
    + intros [= <- _]. left. unfold handleOptimizePrompt_sync.
      destruct (negb (truthy (trim (naturalInput st)))); [reflexivity|].
      destruct (negb (truthy API_KEY)); reflexivity.
    + intros [= <- _]. left.
      destruct outcome as [[text|]|m]; cbn [handleOptimizePrompt_resume];
        [destruct (truthy text)| |]; reflexivity.
    + unfold handleApplyImprovement.
      destruct (analysis st) as [a|] eqn:Ea;
        [|intros [= <- _]; left; reflexivity].
      destruct (get (lit "refinedObjective") a) as [[|[|]| |x| |]|];
        try discriminate; try (intros [= <- _]; left; reflexivity).
      destruct (truthy x); [|intros [= <- _]; left; reflexivity].
      intros [= <- _]. left.
      destruct (sync_cases (Some x) st) as [->|[->|(_ & _ & ->)]];
        try reflexivity.
      unfold commit. cbn [updates deps_changed]. rewrite Ea.
      match goal with |- history (syncManualEffect ?s) = _ =>
        destruct (effect_cases s) as [[-> _]|[-> _]] end; reflexivity.
    + destruct (nth_error (history st) index) as [item|]; [|discriminate].
      destruct (handleHistoryClick item) as [r|] eqn:Er; [|discriminate].
      intros [= <- _]. left. unfold handleHistoryClick in Er.
      destruct (get (lit "dork") (response item)) as [[| | |d| |]|];
        try discriminate.
      injection Er as <-. reflexivity.
    + destruct (analysis st) as [a|]; [|discriminate].
      destruct (vector_at a index); [|discriminate].
      intros [= <- _]. left. reflexivity.
    + intros [= <- _]. left. reflexivity.
    + intros [= <- _]. left. unfold handleCopy.
      destruct (negb (truthy (dork st))); reflexivity.
    + intros [= <- _]. left. reflexivity.
Qed.

(** X12.  In every state the session can reach, while a result is on
    display the query shown is the [dork] of that result and the issues
    shown are the validator's issues for that query: neither is ever
    stale. *)
Theorem result_on_display_is_consistent (st : State) (a : object) :
  Reachable API_KEY JSON_parse TypeError_message st ->
  analysis st = Some a ->
  get (lit "dork") a = Some (JString (dork st)) /\
  syntaxErrors st = validatePayload (dork st).
Proof.
  intros H. apply Reachable_Invariant in H.
  destruct H as (_ & _ & H & _). apply H.
Qed.

(** X13.  In every state the session can reach, in manual mode with at
    least one manual field filled in, the query shown is the one the
    fields compose. *)
Theorem manual_query_is_composed (st : State) :
  Reachable API_KEY JSON_parse TypeError_message st ->
  analysis st = None ->
  manual_parts (manualParams st) <> [] ->
  dork st = join (lit " ") (manual_parts (manualParams st)).
Proof.
  intros H. apply Reachable_Invariant in H.
  destruct H as (_ & _ & _ & H). apply H.
Qed.

(** X14.  In every state the session can reach, every entry of the
    ledger can be loaded back: the click restores the objective, the
    query and the response of the entry, validates the query afresh, and
    leaves every other cell, the ledger included, as it was. *)
Theorem every_entry_can_be_loaded (st : State) (index : nat)
  (item : HistoryItem) :
  Reachable API_KEY JSON_parse TypeError_message st ->
  nth_error (history st) index = Some item ->
  exists d,
    get (lit "dork") (response item) = Some (JString d) /\
    step API_KEY JSON_parse TypeError_message (HistoryClicked index) st =
    Some ({| naturalInput := input item;
             dork := d;
             analysis := Some (response item);
             history := history st;
             isLoading := isLoading st;
             isOptimizing := isOptimizing st;
             error := error st;
             syntaxErrors := validatePayload d;
             showManual := showManual st;
             copyFeedback := copyFeedback st;
             manualParams := manualParams st |}, []).
Proof.
  intros H En. apply Reachable_Invariant in H.
  destruct H as (_ & H & _ & _).
  destruct (H item (nth_error_In _ _ En)) as [d Ed].
  exists d. split; [exact Ed|].
  cbn [step]. rewrite En. unfold handleHistoryClick. rewrite Ed.
  reflexivity.
Qed.

(** *** Entering and leaving the pending state *)

(** X15.  Asking for a generation sends a request exactly when the
    objective is not blank and a credential is configured, and then
    exactly one, built from the objective.  The session then waits with
    the error, the result and the issues cleared; the query on display
    stays, except that after a result was on display with manual fields
    still filled in, it becomes the query those fields compose. *)
Theorem generation_start (overrideInput : option jsstring) (st : State) :
  (calls (generateWithAI_sync API_KEY overrideInput st) = [] <->
   blank (inputToUse overrideInput st) = true \/ truthy API_KEY = false) /\
  (blank (inputToUse overrideInput st) = false -> truthy API_KEY = true ->
   calls (generateWithAI_sync API_KEY overrideInput st)
   = [generation_request (inputToUse overrideInput st)] /\
   commit (generateWithAI_sync API_KEY overrideInput st) st =
   {| naturalInput := naturalInput st;
      dork :=
        match analysis st, manual_parts (manualParams st) with
        | Some _, _ :: _ => join (lit " ") (manual_parts (manualParams st))
        | _, _ => dork st
        end;
      analysis := None;
      history := history st;
      isLoading := true;
      isOptimizing := isOptimizing st;
      error := None;
      syntaxErrors := [];
      showManual := showManual st;
      copyFeedback := copyFeedback st;
      manualParams := manualParams st |}).
Proof.
  destruct (blank (inputToUse overrideInput st)) eqn:Eb.
  - rewrite (sync_blank API_KEY _ _ Eb). split; [|discriminate].
    split; auto.
  - rewrite (sync_not_blank API_KEY _ _ Eb).
    destruct (truthy API_KEY) eqn:Ek; cbn [negb calls].
    + split; [split; [discriminate|intros [H|H]; discriminate]|].
      intros _ _. split; [reflexivity|].
      unfold commit. cbn [updates deps_changed].
      destruct (analysis st); [|reflexivity].
      unfold syncManualEffect. cbn.
      destruct (manual_parts (manualParams st)); reflexivity.
    + split; [split; auto|discriminate].
Qed.

(** X16.  However the awaited call ends, the busy flag is cleared.  A
    rejection puts the UPLINK ERROR message in the error cell, followed
    by the cause in brackets when the error carries one, and changes no
    other cell; a response without text changes nothing else at all. *)
Theorem generation_settles (inputToUse : jsstring) (now : N)
  (outcome : Outcome) (st : State) :
  isLoading
    (commit
       (generateWithAI_resume JSON_parse TypeError_message inputToUse now
          outcome) st) = false /\
  (forall message,
     outcome = Rejected message ->
     commit
       (generateWithAI_resume JSON_parse TypeError_message inputToUse now
          outcome) st =
     setIsLoading false
       (setError
          (Some (UPLINK_ERROR ++
                 match message with
                 | Some (c :: m) => lit " [" ++ (c :: m) ++ lit "]"
                 | _ => []
                 end)) st)) /\
  (outcome = Resolved None \/ outcome = Resolved (Some []) ->
   commit
     (generateWithAI_resume JSON_parse TypeError_message inputToUse now
        outcome) st = setIsLoading false st).
Proof.
  split; [|split].
  - destruct (resume_cases inputToUse now outcome)
      as [[m ->]|[->|(o & d & E & ->)]]; reflexivity.
  - intros m ->. cbn [generateWithAI_resume]. unfold commit, failed.
    cbn [updates deps_changed]. rewrite uplink_error_detail.
    destruct m as [[|c m]|]; reflexivity.
  - intros [->| ->]; reflexivity.
Qed.

Lemma replay_Reachable (events : list Event) (st st' : State) :
  Reachable API_KEY JSON_parse TypeError_message st ->
  replay API_KEY JSON_parse TypeError_message events st = Some st' ->
  Reachable API_KEY JSON_parse TypeError_message st'.
Proof.
  revert st. induction events as [|ev rest IH]; intros st H; cbn [replay].
  - intros [= <-]. exact H.
  - destruct (step API_KEY JSON_parse TypeError_message ev st)
      as [[st1 effects]|] eqn:E; [|discriminate].
    apply IH. eapply Reachable_step; [exact H|exact E].
Qed.

Lemma resume_success (inputToUse : jsstring) (now : N) (text : jsstring)
  (o : object) (d : jsstring) (st : State) :
  truthy text = true -> JSON_parse text = inr (JObject o) ->
  get (lit "dork") o = Some (JString d) ->
  commit
    (generateWithAI_resume JSON_parse TypeError_message inputToUse now
       (Resolved (Some text))) st =
  setIsLoading false
    (setManualParams noManualParams
       (setHistory
          (record {| timestamp := now; input := inputToUse; response := o |})
          (setAnalysis (Some o)
             (setDork d (setSyntaxErrors (validatePayload d) st))))).
Proof.
  intros Ht Hp Hd. cbn [generateWithAI_resume]. rewrite Ht, Hp.
  unfold on_parsed. rewrite Hd. reflexivity.
Qed.

(** X17.  When two generations are in flight, the response that settles
    last decides what is on display, whichever request was made first,
    and both are recorded, the later one on top. *)
Theorem last_response_wins (input1 input2 : jsstring) (now1 now2 : N)
  (text1 text2 : jsstring) (o1 o2 : object) (d1 d2 : jsstring)
  (st : State) :
  truthy text1 = true -> JSON_parse text1 = inr (JObject o1) ->
  get (lit "dork") o1 = Some (JString d1) ->
  truthy text2 = true -> JSON_parse text2 = inr (JObject o2) ->
  get (lit "dork") o2 = Some (JString d2) ->
  exists st1 st2,
    step API_KEY JSON_parse TypeError_message
      (GenerateSettled input1 now1 (Resolved (Some text1))) st
    = Some (st1, []) /\
    step API_KEY JSON_parse TypeError_message
      (GenerateSettled input2 now2 (Resolved (Some text2))) st1
    = Some (st2, []) /\
    dork st2 = d2 /\ analysis st2 = Some o2 /\
    syntaxErrors st2 = validatePayload d2 /\
    history st2 =
      {| timestamp := now2; input := input2; response := o2 |}
      :: {| timestamp := now1; input := input1; response := o1 |}
      :: firstn 8 (history st).
Proof.
  intros T1 P1 D1 T2 P2 D2. cbn [step]. eexists _, _.
  split; [reflexivity|]. split; [reflexivity|].
  rewrite (@resume_success input2 now2 text2 o2 d2 _ T2 P2 D2).
  rewrite (@resume_success input1 now1 text1 o1 d1 _ T1 P1 D1).
  split; [reflexivity|]. split; [reflexivity|]. split; [reflexivity|].
  cbn -[firstn]. unfold record.
  change (firstn 10 (?a :: firstn 10 (?b :: ?l)))
    with (a :: firstn 9 (firstn 10 (b :: l))).
  rewrite firstn_firstn. reflexivity.
Qed.

(** X18.  Loading the newest entry right after the generation that
    recorded it changes nothing on display: it only puts back the
    objective the generation was run with. *)
Theorem reload_after_success (inputToUse : jsstring) (now : N)
  (text : jsstring) (o : object) (d : jsstring) (st : State) :
  truthy text = true -> JSON_parse text = inr (JObject o) ->
  get (lit "dork") o = Some (JString d) ->
  exists st1,
    step API_KEY JSON_parse TypeError_message
      (GenerateSettled inputToUse now (Resolved (Some text))) st
    = Some (st1, []) /\
    step API_KEY JSON_parse TypeError_message (HistoryClicked 0) st1
    = Some (setNaturalInput inputToUse st1, []).
Proof.
  intros T P D. cbn [step]. eexists. split; [reflexivity|].
  rewrite (@resume_success inputToUse now text o d _ T P D).
  cbn -[validatePayload firstn get lit record].
  change (record ?a ?h) with (a :: firstn 9 h).
  unfold handleHistoryClick. cbn -[validatePayload firstn get lit].
  rewrite D. reflexivity.
Qed.

(** X19.  A click on a suggested operator appends it to the objective
    after a plus sign, so the objective is never blank afterwards: with
    a credential configured, asking for a generation next sends exactly
    one request, built from the extended objective. *)
Theorem vector_then_generate (st : State) (a : object) (index : nat)
  (op : jsstring) :
  truthy API_KEY = true ->
  analysis st = Some a -> vector_at a index = Some op ->
  exists st1 st2,
    step API_KEY JSON_parse TypeError_message (VectorClicked index) st
    = Some (st1, []) /\
    naturalInput st1 = naturalInput st ++ lit " + " ++ op /\
    same_result st st1 /\
    step API_KEY JSON_parse TypeError_message GenerateRequested st1
    = Some (st2,
            [CallGenerate
               (generation_request (naturalInput st ++ lit " + " ++ op))]).
Proof.
  intros Hk Ha Hv. cbn [step]. rewrite Ha, Hv. eexists _, _.
  split; [reflexivity|]. split; [reflexivity|].
  split; [repeat split|].
  assert (Hb : blank (inputToUse None (handleVectorClick op st)) = false).
  { cbn. rewrite !blank_app. cbn. apply andb_false_r. }
  rewrite (sync_not_blank API_KEY _ _ Hb), Hk. reflexivity.
Qed.

(** X21.  Typing, enhancing the objective, the operator buttons, the
    manual panel toggle and copying never touch the result on display
    (query, analysis, issues, ledger, manual fields, busy flag of the
    generation) and never ask for a generation. *)
Theorem passive_events_keep_result (ev : Event) (st st' : State)
  (effects : list Effect) :
  passive ev = true ->
  step API_KEY JSON_parse TypeError_message ev st = Some (st', effects) ->
  same_result st st' /\ forall r, ~ In (CallGenerate r) effects.
Proof.
  intros Hp.
  destruct ev as [value|name value| |input now outcome| |outcome| |index
                 |index| | |]; try discriminate Hp; cbn [step].
  - intros [= <- <-]. split; [repeat split|intros r []].
  - intros [= <- <-]. unfold handleOptimizePrompt_sync.
    destruct (negb (truthy (trim (naturalInput st))));
      [split; [repeat split|intros r []]|].
    destruct (negb (truthy API_KEY)); cbn [fst snd map];
      (split; [repeat split|]); intros r H; [destruct H|].
    destruct H as [H|[]]. discriminate H.
  - intros [= <- <-]. split; [|intros r []].
    destruct outcome as [[text|]|m]; cbn [handleOptimizePrompt_resume];
      [destruct (truthy text)| |]; repeat split.
  - destruct (analysis st) as [a|]; [|discriminate].
    destruct (vector_at a index); [|discriminate].
    intros [= <- <-]. split; [repeat split|intros r []].
  - intros [= <- <-]. split; [repeat split|intros r []].
  - intros [= <- <-]. unfold handleCopy.
    destruct (negb (truthy (dork st))); cbn [fst snd];
      (split; [repeat split|]); intros r H; [destruct H|].
    destruct H as [H|[H|[]]]; discriminate H.
  - intros [= <- <-]. split; [repeat split|intros r []].
Qed.

(** *** Without a credential *)

Lemma no_key_no_calls (ev : Event) (st st' : State) (effects : list Effect) :
  truthy API_KEY = false ->
  step API_KEY JSON_parse TypeError_message ev st = Some (st', effects) ->
  forallb (fun e => negb (is_call e)) effects = true.
Proof.
  intros Hk.
  assert (G : forall o s, calls (generateWithAI_sync API_KEY o s) = []).
  { intros o s. destruct (sync_cases o s) as [->|[->|(_ & Hk' & _)]];
      [reflexivity..|congruence]. }
  destruct ev as [value|name value| |input now outcome| |outcome| |index
                 |index| | |]; cbn [step];
    try (intros [= _ <-]; reflexivity).
  - intros [= _ <-]. rewrite G. reflexivity.
  - intros [= _ <-]. unfold handleOptimizePrompt_sync. rewrite Hk.
    destruct (negb (truthy (trim (naturalInput st)))); reflexivity.
  - unfold handleApplyImprovement.
    destruct (analysis st) as [a|]; [|intros [= _ <-]; reflexivity].
    destruct (get (lit "refinedObjective") a) as [[|[|]| |x| |]|];
      try discriminate; try (intros [= _ <-]; reflexivity).
    destruct (truthy x); [|intros [= _ <-]; reflexivity].
    intros [= _ <-]. cbn [calls]. rewrite G. reflexivity.
  - destruct (nth_error (history st) index) as [item|]; [|discriminate].
    destruct (handleHistoryClick item); [|discriminate].
    intros [= _ <-]. reflexivity.
  - destruct (analysis st) as [a|]; [|discriminate].
    destruct (vector_at a index); [|discriminate].
    intros [= _ <-]. reflexivity.
  - intros [= _ <-]. unfold handleCopy.
    destruct (negb (truthy (dork st))); reflexivity.
Qed.

Lemma no_key_error_stays (ev : Event) (st st' : State)
  (effects : list Effect) :
  truthy API_KEY = false -> error st <> None ->
  step API_KEY JSON_parse TypeError_message ev st = Some (st', effects) ->
  error st' <> None.
Proof.
  intros Hk He.
  assert (G : forall o s0,
            error (commit
                     {| updates := updates (generateWithAI_sync API_KEY o st);
                        deps_changed :=
                          deps_changed (generateWithAI_sync API_KEY o st);
                        calls := [] |} s0) = error s0 \/
            error (commit
                     {| updates := updates (generateWithAI_sync API_KEY o st);
                        deps_changed :=
                          deps_changed (generateWithAI_sync API_KEY o st);
                        calls := [] |} s0) = Some ABORTED).
  { intros o s0. destruct (sync_cases o st) as [->|[->|(_ & Hk' & _)]];
      [left; reflexivity|right; reflexivity|congruence]. }
  destruct ev as [value|name value| |input now outcome| |outcome| |index
                 |index| | |]; cbn [step];
    try (intros [= <- _]; exact He).
  - intros [= <- _]. unfold commit, handleManualChange.
    cbn [updates deps_changed].
    match goal with |- error (syncManualEffect ?s) <> _ =>
      destruct (effect_cases s) as [[-> _]|[-> _]] end; exact He.
  - intros [= <- _]. destruct (G None st) as [E|E].
    + unfold commit in *. cbn [updates deps_changed] in *.
      rewrite E. exact He.
    + unfold commit in *. cbn [updates deps_changed] in *.
      rewrite E. discriminate.
  - intros [= <- _].
    destruct (resume_cases input now outcome)
      as [[m ->]|[->|(o & d & E & ->)]];
      [discriminate|exact He|exact He].
  - intros [= <- _]. unfold handleOptimizePrompt_sync. rewrite Hk.
    destruct (negb (truthy (trim (naturalInput st))));
      [exact He|discriminate].
  - intros [= <- _].
    destruct outcome as [[text|]|m]; cbn [handleOptimizePrompt_resume];
      [destruct (truthy text)| |]; try exact He. discriminate.
  - unfold handleApplyImprovement.
    destruct (analysis st) as [a|]; [|intros [= <- _]; exact He].
    destruct (get (lit "refinedObjective") a) as [[|[|]| |x| |]|];
      try discriminate; try (intros [= <- _]; exact He).
    destruct (truthy x); [|intros [= <- _]; exact He].
    intros [= <- _].
    destruct (G (Some x) (setNaturalInput x st)) as [E|E].
    + unfold commit in *. cbn [updates deps_changed] in *.
      rewrite E. exact He.
    + unfold commit in *. cbn [updates deps_changed] in *.
      rewrite E. discriminate.
  - destruct (nth_error (history st) index) as [item|]; [|discriminate].
    unfold handleHistoryClick.
    destruct (get (lit "dork") (response item)) as [[| | |d| |]|];
      try discriminate.
    intros [= <- _]. exact He.
  - destruct (analysis st) as [a|]; [|discriminate].
    destruct (vector_at a index); [|discriminate].
    intros [= <- _]. exact He.
  - intros [= <- _]. unfold handleCopy.
    destruct (negb (truthy (dork st))); exact He.
Qed.

End Runtime.

(** When neither the environment nor the env file holds a key, the
    build injects the empty string. *)
Lemma injected_key_falsy (process_env loaded_env : option jsstring) :
  truthy (injected_key process_env loaded_env) = false <->
  (forall k, process_env = Some k -> k = []) /\
  (forall k, loaded_env = Some k -> k = []).
Proof.
  unfold injected_key.
  destruct process_env as [[|c p]|], loaded_env as [[|c' l]|]; cbn;
    (split; [intros H; try discriminate; split; intros k [= <-];
             reflexivity
            |intros [H1 H2]; try reflexivity;
             try (specialize (H1 _ eq_refl); discriminate);
             try (specialize (H2 _ eq_refl); discriminate)]).
Qed.

(** X20.  A build without a key (the injected value is the empty string)
    never calls the model: in every state the session can reach an error
    message is on display, and no event makes a generation or an
    enhancement request. *)
Theorem no_credential_no_request (process_env loaded_env : option jsstring)
  (JSON_parse : parser) (TypeError_message : json -> jsstring) (st : State) :
  truthy (injected_key process_env loaded_env) = false ->
  Reachable (injected_key process_env loaded_env) JSON_parse
    TypeError_message st ->
  error st <> None /\
  forall ev st' effects,
    step (injected_key process_env loaded_env) JSON_parse TypeError_message
      ev st = Some (st', effects) ->
    forallb (fun e => negb (is_call e)) effects = true.
Proof.
  intros Hk H. split.
  - induction H as [|ev st st' effects H IH E].
    + unfold mountEffect. rewrite Hk. discriminate.
    + eapply no_key_error_stays; [exact Hk|exact IH|exact E].
  - intros ev st' effects E. eapply no_key_no_calls; [exact Hk|exact E].
Qed.

(** *** Sample sessions *)

Lemma after_edu_reachable :
  Reachable Sample.key Sample.parse Sample.type_error
    (Sample.after Sample.edu_text).
Proof.
  apply (@replay_Reachable Sample.key Sample.parse Sample.type_error
           [Typed Sample.objective; GenerateRequested;
            GenerateSettled Sample.objective 7
              (Resolved (Some Sample.edu_text))]
           (mountEffect Sample.key initialState)).
  - apply Reachable_mount.
  - reflexivity.
Qed.

Lemma manual_site_reachable :
  Reachable Sample.key Sample.parse Sample.type_error
    (commit (handleManualChange FSite (lit "example.com") initialState)
       initialState).
Proof.
  apply (@replay_Reachable Sample.key Sample.parse Sample.type_error
           [ManualChanged FSite (lit "example.com")]
           (mountEffect Sample.key initialState)).
  - apply Reachable_mount.
  - reflexivity.
Qed.

Lemma blank_enhancement_erases_objective_witness :
  naturalInput
    (handleOptimizePrompt_resume (Resolved (Some (lit " "))) Sample.typed)
  = [] /\
  step Sample.key Sample.parse Sample.type_error GenerateRequested
    (handleOptimizePrompt_resume (Resolved (Some (lit " "))) Sample.typed)
  = Some
      (handleOptimizePrompt_resume (Resolved (Some (lit " "))) Sample.typed,
       []).
Proof.
  pose proof (@blank_enhancement_erases_objective Sample.key Sample.parse
                Sample.type_error (lit " ") Sample.typed) as H.
  destruct H as (H1 & H2 & _); [discriminate|reflexivity|].
  split; [exact H1|exact H2].
Defined.

Lemma result_on_display_is_consistent_witness :
  get (lit "dork") Sample.edu
  = Some (JString (dork (Sample.after Sample.edu_text))) /\
  syntaxErrors (Sample.after Sample.edu_text)
  = validatePayload (dork (Sample.after Sample.edu_text)).
Proof.
  apply (@result_on_display_is_consistent Sample.key Sample.parse
           Sample.type_error (Sample.after Sample.edu_text) Sample.edu).
  - exact after_edu_reachable.
  - reflexivity.
Defined.

Lemma manual_query_is_composed_witness :
  dork (commit (handleManualChange FSite (lit "example.com") initialState)
          initialState)
  = lit "site:example.com".
Proof.
  apply (@manual_query_is_composed Sample.key Sample.parse Sample.type_error
           (commit (handleManualChange FSite (lit "example.com") initialState)
              initialState)).
  - exact manual_site_reachable.
  - reflexivity.
  - discriminate.
Defined.

Lemma every_entry_can_be_loaded_witness :
  exists d,
    get (lit "dork") Sample.edu = Some (JString d) /\
    naturalInput (Sample.after Sample.edu_text) = Sample.objective /\
    nth_error (history (Sample.after Sample.edu_text)) 0
    = Some {| timestamp := 7; input := Sample.objective;
              response := Sample.edu |}.
Proof.
  destruct (@every_entry_can_be_loaded Sample.key Sample.parse
              Sample.type_error (Sample.after Sample.edu_text) 0
              {| timestamp := 7; input := Sample.objective;
                 response := Sample.edu |} after_edu_reachable eq_refl)
    as (d & Hd & _).
  exists d. split; [exact Hd|]. split; reflexivity.
Defined.

Lemma last_response_wins_witness :
  exists st1 st2,
    step Sample.key Sample.parse Sample.type_error
      (GenerateSettled Sample.objective 7 (Resolved (Some Sample.edu_text)))
      Sample.typed = Some (st1, []) /\
    step Sample.key Sample.parse Sample.type_error
      (GenerateSettled (lit "example") 8
         (Resolved (Some Sample.dork_only_text))) st1 = Some (st2, []) /\
    dork st2 = lit "site:example.com" /\
    List.length (history st2) = 2.
Proof.
  destruct (@last_response_wins Sample.key Sample.parse Sample.type_error
              Sample.objective (lit "example") 7 8 Sample.edu_text
              Sample.dork_only_text Sample.edu Sample.dork_only
              (lit "site:.edu filetype:env") (lit "site:example.com")
              Sample.typed eq_refl eq_refl eq_refl eq_refl eq_refl eq_refl)
    as (st1 & st2 & H1 & H2 & H3 & _ & _ & H4).
  exists st1, st2. split; [exact H1|]. split; [exact H2|].
  split; [exact H3|]. rewrite H4. reflexivity.
Defined.

Lemma reload_after_success_witness :
  exists st1,
    step Sample.key Sample.parse Sample.type_error
      (GenerateSettled Sample.objective 7 (Resolved (Some Sample.edu_text)))
      Sample.typed = Some (st1, []) /\
    step Sample.key Sample.parse Sample.type_error (HistoryClicked 0) st1
    = Some (setNaturalInput Sample.objective st1, []).
Proof.
  apply (@reload_after_success Sample.key Sample.parse Sample.type_error
           Sample.objective 7 Sample.edu_text Sample.edu
           (lit "site:.edu filetype:env") Sample.typed);
    reflexivity.
Defined.

Lemma vector_then_generate_witness :
  exists st1 st2,
    step Sample.key Sample.parse Sample.type_error (VectorClicked 0)
      (Sample.after Sample.edu_text) = Some (st1, []) /\
    naturalInput st1 = Sample.objective ++ lit " + intitle:index.of" /\
    same_result (Sample.after Sample.edu_text) st1 /\
    step Sample.key Sample.parse Sample.type_error GenerateRequested st1
    = Some (st2,
            [CallGenerate
               (generation_request
                  (Sample.objective ++ lit " + intitle:index.of"))]).
Proof.
  apply (@vector_then_generate Sample.key Sample.parse Sample.type_error
           (Sample.after Sample.edu_text) Sample.edu 0
           (lit "intitle:index.of"));
    reflexivity.
Defined.

Lemma passive_events_keep_result_witness :
  same_result (Sample.after Sample.edu_text)
    (setCopyFeedback true (Sample.after Sample.edu_text)) /\
  forall r,
    ~ In (CallGenerate r)
        [ClipboardWrite (lit "site:.edu filetype:env"); SetTimeout 2000].
Proof.
  apply (@passive_events_keep_result Sample.key Sample.parse
           Sample.type_error CopyClicked (Sample.after Sample.edu_text));
    reflexivity.
Defined.

Lemma no_credential_no_request_witness :
  error (mountEffect [] initialState) <> None /\
  forall ev st' effects,
    step [] Sample.parse Sample.type_error ev (mountEffect [] initialState)
    = Some (st', effects) ->
    forallb (fun e => negb (is_call e)) effects = true.
Proof.
  apply (@no_credential_no_request None (Some []) Sample.parse
           Sample.type_error (mountEffect [] initialState)).
  - reflexivity.
  - apply (@Reachable_mount [] Sample.parse Sample.type_error).
Defined.

End SessionFacts.
